(** * Resident registry: a shallow embedding of [src/routes/index.js]

    The Express router keeps an in-memory array [residents] and a counter
    [nextResidentId], and serves three routes over them:
    [GET /api/residents], [POST /api/residents] and
    [DELETE /api/residents/:id].  Each handler is embedded as a function
    from the request data and the store to an outcome and the new store.

    The handlers lean on JavaScript's dynamic coercions ([typeof],
    [String.prototype.trim], [Number(...)], [Number.isFinite], [Math.trunc],
    [===]), so the first half of the file embeds the part of ECMAScript they
    reach: values as a JSON body parser produces them, strings as sequences
    of UTF-16 code units, and numbers as IEEE-754 binary64 values. *)

From Stdlib Require Import ZArith QArith Bool List String Ascii Lia.
From Stdlib Require Import Sorted.
Import ListNotations.

Local Open Scope Z_scope.

(** ** Strings *)

(** A JavaScript string is a sequence of UTF-16 code units. *)
Definition jsstring := list N.

(** An ASCII literal as a JavaScript string. *)
Definition lit (s : string) : jsstring :=
  List.map N_of_ascii (list_ascii_of_string s).

Definition jsstring_eqb (a b : jsstring) : bool :=
  if list_eq_dec N.eq_dec a b then true else false.

(** ECMAScript [WhiteSpace] and [LineTerminator] code points: what
    [String.prototype.trim] strips and what [StringToNumber] skips. *)
Definition is_white_space (c : N) : bool :=
  let u := Z.of_N c in
  (u =? 0x09) || (u =? 0x0A) || (u =? 0x0B) || (u =? 0x0C) || (u =? 0x0D) ||
  (u =? 0x20) || (u =? 0xA0) || (u =? 0x1680) ||
  ((0x2000 <=? u) && (u <=? 0x200A)) ||
  (u =? 0x2028) || (u =? 0x2029) || (u =? 0x202F) || (u =? 0x205F) ||
  (u =? 0x3000) || (u =? 0xFEFF).

Fixpoint trim_start (s : jsstring) : jsstring :=
  match s with
  | c :: s' => if is_white_space c then trim_start s' else s
  | [] => []
  end.

Definition trim_end (s : jsstring) : jsstring := rev (trim_start (rev s)).

(** [s.trim()] *)
Definition trim (s : jsstring) : jsstring := trim_end (trim_start s).

(** ** Numbers *)

(** A JavaScript number is a binary64 value.  A finite one is carried by
    the rational it denotes; the two zeros are carried by the same [0]
    (the handlers never tell them apart: [-0 < 0] is false, [-0 === 0] is
    true and [JSON.stringify(-0)] is ["0"]). *)
Inductive number : Type :=
| NaN
| Infinity (negative : bool)
| Finite (q : Q).

(** [Number.isFinite(n)] *)
Definition isFinite (n : number) : bool :=
  match n with Finite _ => true | _ => false end.

(** [a < b] on numbers: false as soon as one side is [NaN]. *)
Definition lessThan (a b : number) : bool :=
  match a, b with
  | NaN, _ | _, NaN => false
  | Infinity true, Infinity true => false
  | Infinity true, _ => true
  | _, Infinity true => false
  | Infinity false, _ => false
  | _, Infinity false => true
  | Finite p, Finite q => negb (Qle_bool q p)
  end.

(** [Math.trunc(n)]: the integral part, rounding toward zero. *)
Definition trunc (n : number) : number :=
  match n with
  | Finite q => Finite (inject_Z (Z.quot (Qnum q) (Zpos (Qden q))))
  | _ => n
  end.

(** The integer an integral finite number denotes ([0] on the others, which
    the handlers never store). *)
Definition to_integer (n : number) : Z :=
  match n with
  | Finite q => Z.quot (Qnum q) (Zpos (Qden q))
  | _ => 0
  end.

Definition zero : number := Finite 0.

Definition of_Z (z : Z) : number := Finite (inject_Z z).

(** *** Rounding to binary64 *)

(** [num / den] rounded to the nearest integer, ties to even
    ([0 <= num], [0 < den]). *)
Definition round_half_even (num den : Z) : Z :=
  let fl := num / den in
  match 2 * (num mod den) ?= den with
  | Lt => fl
  | Gt => fl + 1
  | Eq => if Z.even fl then fl else fl + 1
  end.

(** Is [2^e <= a / b]? *)
Definition pow2_le (e a b : Z) : bool :=
  if 0 <=? e then b * 2 ^ e <=? a else b <=? a * 2 ^ (- e).

(** The binary64 value nearest to the positive rational [a / b]:
    53 significant bits, least exponent [-1074], overflow to [Infinity]
    from [2^1024] on. *)
Definition round_positive (a b : Z) : number :=
  let e0 := Z.log2 a - Z.log2 b in
  let e := if pow2_le e0 a b then e0 else e0 - 1 in
  let x := Z.max (e - 52) (-1074) in
  if 0 <=? x then
    let v := round_half_even a (b * 2 ^ x) * 2 ^ x in
    if 2 ^ 1024 <=? v then Infinity false else Finite (inject_Z v)
  else
    Finite (Qred (round_half_even (a * 2 ^ (- x)) b # Z.to_pos (2 ^ (- x)))).

Definition negate (n : number) : number :=
  match n with
  | NaN => NaN
  | Infinity s => Infinity (negb s)
  | Finite q => Finite (Qopp q)
  end.

(** The Number value for a mathematical value. *)
Definition round_double (q : Q) : number :=
  match Qnum q with
  | 0 => zero
  | Zpos p => round_positive (Zpos p) (Zpos (Qden q))
  | Zneg p => negate (round_positive (Zpos p) (Zpos (Qden q)))
  end.

(** *** [StringToNumber] *)

Definition digit_value (c : N) : option Z :=
  let u := Z.of_N c in
  if (48 <=? u) && (u <=? 57) then Some (u - 48)
  else if (97 <=? u) && (u <=? 102) then Some (u - 87)
  else if (65 <=? u) && (u <=? 70) then Some (u - 55)
  else None.

(** The value of a non-empty run of digits in [base], [None] if the run is
    empty or holds anything else. *)
Fixpoint digits_from (base acc : Z) (s : jsstring) : option Z :=
  match s with
  | [] => Some acc
  | c :: s' =>
      match digit_value c with
      | Some d => if d <? base then digits_from base (base * acc + d) s' else None
      | None => None
      end
  end.

Definition digits (base : Z) (s : jsstring) : option Z :=
  match s with
  | [] => None
  | _ => digits_from base 0 s
  end.

Definition is_decimal_digit (c : N) : bool :=
  (48 <=? Z.of_N c) && (Z.of_N c <=? 57).

(** Split off the longest prefix of decimal digits. *)
Fixpoint span_digits (s : jsstring) : jsstring * jsstring :=
  match s with
  | c :: s' =>
      if is_decimal_digit c
      then let '(ds, rest) := span_digits s' in (c :: ds, rest)
      else ([], s)
  | [] => ([], [])
  end.

(** [NonDecimalIntegerLiteral]: [0x], [0o] or [0b] and digits, no sign. *)
Definition non_decimal_literal (s : jsstring) : option Z :=
  match s with
  | 48%N :: p :: ds =>
      if (p =? 120)%N || (p =? 88)%N then digits 16 ds
      else if (p =? 111)%N || (p =? 79)%N then digits 8 ds
      else if (p =? 98)%N || (p =? 66)%N then digits 2 ds
      else None
  | _ => None
  end.

(** [ExponentPart], or nothing. *)
Definition exponent_part (s : jsstring) : option Z :=
  match s with
  | [] => Some 0
  | e :: s' =>
      if (e =? 101)%N || (e =? 69)%N then
        match s' with
        | 43%N :: ds => digits 10 ds
        | 45%N :: ds => option_map Z.opp (digits 10 ds)
        | _ => digits 10 s'
        end
      else None
  end.

Definition scale10 (m e : Z) : Q :=
  if 0 <=? e then inject_Z (m * 10 ^ e) else m # Z.to_pos (10 ^ (- e)).

(** [StrUnsignedDecimalLiteral] other than [Infinity]: its mathematical
    value. *)
Definition unsigned_decimal (s : jsstring) : option Q :=
  let '(ip, r1) := span_digits s in
  let '(fp, r2) :=
    match r1 with
    | 46%N :: r => span_digits r
    | _ => ([], r1)
    end in
  match ip ++ fp with
  | [] => None
  | ds =>
      match digits_from 10 0 ds, exponent_part r2 with
      | Some m, Some e => Some (scale10 m (e - Z.of_nat (List.length fp)))
      | _, _ => None
      end
  end.

(** [StrDecimalLiteral] *)
Definition decimal_literal (s : jsstring) : option number :=
  let '(neg, u) :=
    match s with
    | 43%N :: u => (false, u)
    | 45%N :: u => (true, u)
    | _ => (false, s)
    end in
  let sign n := if neg then negate n else n in
  if jsstring_eqb u (lit "Infinity") then Some (sign (Infinity false))
  else option_map (fun q => sign (round_double q)) (unsigned_decimal u).

(** [StringToNumber(s)]: white space is skipped on both sides, the empty
    string is [0], a [StringNumericLiteral] is its value rounded to
    binary64, anything else is [NaN]. *)
Definition StringToNumber (s : jsstring) : number :=
  match trim s with
  | [] => zero
  | t =>
      match non_decimal_literal t with
      | Some z => round_double (inject_Z z)
      | None =>
          match decimal_literal t with
          | Some n => n
          | None => NaN
          end
      end
  end.

(** ** Values *)

(** What a JSON body parser hands to a handler: the JSON values, and
    [undefined] for what is absent.  An object is the list of its own
    properties; none of them is callable. *)
#[warnings="-register-all"]
Inductive value : Type :=
| VUndefined
| VNull
| VBool (b : bool)
| VNumber (n : number)
| VString (s : jsstring)
| VArray (elements : list value)
| VObject (properties : list (jsstring * value)).

Fixpoint own_property (k : jsstring) (props : list (jsstring * value))
  : option value :=
  match props with
  | [] => None
  | (k', v) :: props' =>
      if jsstring_eqb k k' then Some v else own_property k props'
  end.

(** [v[k]] for a key [k] that no built-in prototype defines, as [name] and
    [age] are: the own property of an object, [undefined] on an object
    without it, on an array and on a primitive. *)
Definition get (v : value) (k : jsstring) : value :=
  match v with
  | VObject props =>
      match own_property k props with
      | Some x => x
      | None => VUndefined
      end
  | _ => VUndefined
  end.

Definition ToBoolean (v : value) : bool :=
  match v with
  | VUndefined | VNull => false
  | VBool b => b
  | VNumber NaN => false
  | VNumber (Finite q) => negb (Qeq_bool q 0)
  | VNumber (Infinity _) => true
  | VString s => match s with [] => false | _ => true end
  | VArray _ | VObject _ => true
  end.

(** [a || b] *)
Definition or_else (a b : value) : value := if ToBoolean a then a else b.

(** *** [ToNumber] and the exception it can throw *)

Inductive error : Type := TypeError.

Inductive completion (A : Type) : Type :=
| Normal (a : A)
| Throw (e : error).
Arguments Normal {A} a.
Arguments Throw {A} e.

(** Does [ToString(v)] complete normally?  On an object, [ToPrimitive]
    looks up [toString] and [valueOf]: an own [toString] shadows
    [Object.prototype.toString] and is not callable, and
    [Object.prototype.valueOf] (or a shadowing own [valueOf]) yields no
    primitive, so the conversion throws a [TypeError] exactly when the
    object has an own [toString].  An array joins its elements, converting
    each one but [undefined] and [null]. *)
Fixpoint stringifies (v : value) : bool :=
  match v with
  | VObject props =>
      match own_property (lit "toString") props with
      | Some _ => false
      | None => true
      end
  | VArray l => forallb stringifies l
  | _ => true
  end.

(** [StringToNumber(a.join())] where [v] is the array [a], or
    [StringToNumber] of what an element [v] contributes to the joined
    string of a one-element array: nothing for [undefined] and [null],
    [ToString(v)] otherwise.  A number contributes its shortest decimal
    form, which [StringToNumber] reads back as the same number; two or more
    elements are joined by commas, which no numeric literal holds. *)
Fixpoint joined_number (v : value) : number :=
  match v with
  | VUndefined | VNull => StringToNumber []
  | VBool b => StringToNumber (lit (if b then "true" else "false"))
  | VNumber n => n
  | VString s => StringToNumber s
  | VObject _ => StringToNumber (lit "[object Object]")
  | VArray [] => StringToNumber []
  | VArray [x] => joined_number x
  | VArray (_ :: _ :: _) => NaN
  end.

(** [Number(v)] *)
Definition ToNumber (v : value) : completion number :=
  match v with
  | VUndefined => Normal NaN
  | VNull => Normal zero
  | VBool b => Normal (if b then of_Z 1 else zero)
  | VNumber n => Normal n
  | VString s => Normal (StringToNumber s)
  | VArray _ | VObject _ =>
      if stringifies v then Normal (joined_number v) else Throw TypeError
  end.

(** [a === b] on numbers *)
Definition strict_equals (a b : number) : bool :=
  match a, b with
  | Finite p, Finite q => Qeq_bool p q
  | Infinity s, Infinity t => Bool.eqb s t
  | _, _ => false
  end.

(** *** Arrays *)

(** [l.findIndex(p)] *)
Fixpoint findIndex {A : Type} (p : A -> bool) (l : list A) : Z :=
  match l with
  | [] => -1
  | x :: l' =>
      if p x then 0
      else let i := findIndex p l' in if i =? -1 then -1 else i + 1
  end.

(** The array after [l.splice(start, deleteCount)]. *)
Definition splice {A : Type} (l : list A) (start deleteCount : Z) : list A :=
  let len := Z.of_nat (List.length l) in
  let from := if start <? 0 then Z.max (len + start) 0 else Z.min start len in
  let count := Z.min (Z.max deleteCount 0) (len - from) in
  firstn (Z.to_nat from) l ++ skipn (Z.to_nat (from + count)) l.

(** ** The store *)

(** A resident as stored and as sent.  [id] and [age] are numbers with an
    integral value (a value of the counter, a result of [Math.trunc]) and
    are carried by that integer. *)
Record Resident : Type := mkResident {
  id : Z;
  name : jsstring;
  age : Z
}.

(** The module-level [residents] array and [nextResidentId] counter.  The
    array is a list: how many elements an engine can store is outside this
    model. *)
Record store : Type := mkStore {
  residents : list Resident;
  nextResidentId : Z
}.

(** [const residents = []; let nextResidentId = 1;] *)
Definition initial : store := {| residents := []; nextResidentId := 1 |}.

(** The largest value the counter takes: binary64 holds every integer up to
    [2^53], and [2^53 + 1] is not one of its values. *)
Definition MAX_EXACT : Z := 2 ^ 53.

(** The counter after [nextResidentId++]: the exact sum, rounded to
    binary64 as every JavaScript addition is. *)
Definition increment (n : Z) : Z :=
  to_integer (round_double (inject_Z (n + 1))).

(** ** Responses *)

Inductive payload : Type :=
| Empty                                     (* [send()] *)
| ErrorJson (status message : jsstring)     (* [json({status, message})] *)
| ResidentJson (r : Resident)               (* [json(resident)] *)
| ResidentsJson (l : list Resident).        (* [json(residents)] *)

(** What running a handler comes to: a response sent with a status code, or
    an exception leaving the handler. *)
Inductive outcome : Type :=
| Sent (status : Z) (body : payload)
| Thrown (e : error).

Definition quote : jsstring := [34%N].

Definition name_required : payload :=
  ErrorJson (lit "error")
    (lit "Field " ++ quote ++ lit "name" ++ quote ++ lit " is required").

Definition age_invalid : payload :=
  ErrorJson (lit "error")
    (lit "Field " ++ quote ++ lit "age" ++ quote
       ++ lit " must be a non-negative number").

Definition not_found : payload :=
  ErrorJson (lit "error") (lit "Resident not found").

(** ** The handlers *)

(** [router.get('/api/residents', ...)] *)
Definition list_all (s : store) : outcome * store :=
  (Sent 200 (ResidentsJson (residents s)), s).

(** [const { name, age } = req.body || {};] *)
Definition name_and_age (body : value) : value * value :=
  let b := or_else body (VObject []) in
  (get b (lit "name"), get b (lit "age")).

(** [router.post('/api/residents', ...)], on [req.body]. *)
Definition create (body : value) (s : store) : outcome * store :=
  let '(name_, age_) := name_and_age body in
  match name_ with
  | VString nm =>
      if Z.of_nat (List.length (trim nm)) =? 0 then
        (Sent 400 name_required, s)
      else
        match ToNumber age_ with
        | Throw e => (Thrown e, s)
        | Normal parsedAge =>
            if negb (isFinite parsedAge) || lessThan parsedAge zero then
              (Sent 400 age_invalid, s)
            else
              let resident :=
                {| id := nextResidentId s;
                   name := trim nm;
                   age := to_integer (trunc parsedAge) |} in
              (Sent 201 (ResidentJson resident),
               {| residents := residents s ++ [resident];
                  nextResidentId := increment (nextResidentId s) |})
        end
  | _ => (Sent 400 name_required, s)   (* [typeof name !== 'string'] *)
  end.

(** [(r) => r.id === id] *)
Definition same_id (id_ : number) (r : Resident) : bool :=
  strict_equals (of_Z (id r)) id_.

(** [router.delete('/api/residents/:id', ...)], on [req.params.id], which
    the router always gives as a string: [Number] of it is
    [StringToNumber]. *)
Definition delete (param : jsstring) (s : store) : outcome * store :=
  let id_ := StringToNumber param in
  if negb (isFinite id_) then (Sent 404 not_found, s)
  else
    let idx := findIndex (same_id id_) (residents s) in
    if idx =? -1 then (Sent 404 not_found, s)
    else
      (Sent 204 Empty,
       {| residents := splice (residents s) idx 1;
          nextResidentId := nextResidentId s |}).

(** ** Sequences of requests *)

Inductive request : Type :=
| List
| Create (body : value)
| Delete (param : jsstring).

Definition handle (rq : request) (s : store) : outcome * store :=
  match rq with
  | List => list_all s
  | Create body => create body s
  | Delete param => delete param s
  end.

(** Serve the requests one after the other: the outcomes, in order, and the
    store left behind. *)
Fixpoint serve (rqs : list request) (s : store) : list outcome * store :=
  match rqs with
  | [] => ([], s)
  | rq :: rqs' =>
      let '(o, s1) := handle rq s in
      let '(os, s2) := serve rqs' s1 in
      (o :: os, s2)
  end.

(** The residents the outcomes report as created (status 201), in order. *)
Fixpoint created (os : list outcome) : list Resident :=
  match os with
  | Sent status (ResidentJson r) :: os' =>
      if status =? 201 then r :: created os' else created os'
  | _ :: os' => created os'
  | [] => []
  end.

(** ** Order and effects *)

(** [l] is [l'] with some elements left out, the others in their order. *)
Inductive subsequence {A : Type} : list A -> list A -> Prop :=
| sub_nil : subsequence [] []
| sub_keep x l l' : subsequence l l' -> subsequence (x :: l) (x :: l')
| sub_drop x l l' : subsequence l l' -> subsequence l (x :: l').

(** What one request does to the store: nothing, and then it does not
    answer with a created resident; or it appends the resident it answers
    with, who has the counter's value as id, and advances the counter; or
    it takes one resident out and leaves the counter. *)
Inductive effect (s : store) : outcome -> store -> Prop :=
| effect_none o :
    created [o] = [] -> effect s o s
| effect_create r :
    id r = nextResidentId s ->
    effect s (Sent 201 (ResidentJson r))
      {| residents := residents s ++ [r];
         nextResidentId := increment (nextResidentId s) |}
| effect_delete l1 r l2 :
    residents s = l1 ++ r :: l2 ->
    effect s (Sent 204 Empty)
      {| residents := l1 ++ l2; nextResidentId := nextResidentId s |}.

(** The [k]-th id given out after a counter at [n] is [n + k], capped at
    [2^53]. *)
Definition nth_id (n : Z) (k : nat) : Z := Z.min (n + Z.of_nat k) MAX_EXACT.

(** ** Example requests *)

(** The body [{"name": nm, "age": a}]. *)
Definition request_body (nm : jsstring) (a : value) : value :=
  VObject [(lit "name", VString nm); (lit "age", a)].

(** The binary64 value of the literal [35.7]. *)
Definition age_35_7 : Q := 2512164167142605 # 70368744177664.

(** [{"name": "Jane Doe", "age": 35.7}] *)
Definition jane_doe : value :=
  request_body (lit "Jane Doe") (VNumber (Finite age_35_7)).

(** The resident that body makes under the id [i]. *)
Definition jane (i : Z) : Resident :=
  {| id := i; name := lit "Jane Doe"; age := 35 |}.

(** The digits of [p] in base two. *)
Fixpoint binary (p : positive) : jsstring :=
  match p with
  | xH => [49%N]
  | xO p' => binary p' ++ [48%N]
  | xI p' => binary p' ++ [49%N]
  end.

(** The literal [0b...] of a positive integer: a path parameter that
    [Number] reads as that integer. *)
Definition binary_literal (k : Z) : jsstring :=
  lit "0b" ++ match k with Zpos p => binary p | _ => [48%N] end.

(** [n] rounds of creating a resident and deleting it again, the first of
    them under the id [k]. *)
Fixpoint churn (n : nat) (k : Z) : list request :=
  match n with
  | O => []
  | S n' =>
      Create jane_doe :: Delete (binary_literal k) :: churn n' (k + 1)
  end.

(** [2^53 - 1] such rounds, and then two residents created and kept. *)
Definition exhausting : list request :=
  churn (Z.to_nat (MAX_EXACT - 1)) 1 ++ [Create jane_doe; Create jane_doe].

(** ** Bookkeeping over outcomes and lists *)

(** How many of the outcomes are a 204, the answer of a [delete] that took
    a resident out. *)
Fixpoint removed (os : list outcome) : nat :=
  match os with
  | Sent status _ :: os' =>
      if status =? 204 then S (removed os') else removed os'
  | _ :: os' => removed os'
  | [] => O
  end.

(** [l] without its first element that satisfies [p]. *)
Fixpoint remove_first {A : Type} (p : A -> bool) (l : list A) : list A :=
  match l with
  | [] => []
  | x :: l' => if p x then l' else x :: remove_first p l'
  end.

(** A resident as [create] makes them: a name that is not empty and has
    no white space at either end, and an age that is not negative. *)
Definition well_formed (r : Resident) : Prop :=
  name r <> [] /\
  trim (name r) = name r /\
  (forall c t, name r = c :: t -> is_white_space c = false) /\
  (forall t d, name r = t ++ [d] -> is_white_space d = false) /\
  0 <= age r.

(** * Properties *)

(** ** The counter *)

Lemma to_integer_integral (q : Q) (a : Z) :
  (q == inject_Z a)%Q -> to_integer (Finite q) = a.
Proof.
  unfold Qeq, to_integer. cbn [Qnum Qden inject_Z].
  rewrite Z.mul_1_r. intros ->. apply Z.quot_mul. discriminate.
Qed.

Lemma round_half_even_1 (a : Z) : round_half_even a 1 = a.
Proof.
  unfold round_half_even. rewrite Z.mod_1_r, Z.div_1_r. reflexivity.
Qed.

(** Rounding leaves the integers up to [2^53] alone. *)
Lemma round_small_integer (a : Z) :
  0 < a <= MAX_EXACT ->
  exists q, round_positive a 1 = Finite q /\ (q == inject_Z a)%Q.
Proof.
  intros [Hpos Hle]. unfold MAX_EXACT in Hle.
  assert (Hlog : 0 <= Z.log2 a <= 53).
  { split; [apply Z.log2_nonneg|].
    apply Z.lt_succ_r, Z.log2_lt_pow2; [assumption|].
    change (Z.succ 53) with 54.
    apply Z.le_lt_trans with (2 ^ 53); [assumption|reflexivity]. }
  assert (Hspec : 2 ^ Z.log2 a <= a) by (apply Z.log2_spec; assumption).
  unfold round_positive.
  change (Z.log2 1) with 0. rewrite Z.sub_0_r.
  unfold pow2_le.
  destruct (Z.leb_spec 0 (Z.log2 a)) as [_|]; [|lia].
  rewrite Z.mul_1_l.
  destruct (Z.leb_spec (2 ^ Z.log2 a) a) as [_|]; [|lia].
  rewrite Z.max_l by lia.
  destruct (Z.leb_spec 0 (Z.log2 a - 52)) as [Hx|Hx].
  - assert (Hcase : Z.log2 a = 52 \/ Z.log2 a = 53) by lia.
    destruct Hcase as [E|E]; rewrite E in *.
    + change (52 - 52) with 0. change (2 ^ 0) with 1.
      rewrite !Z.mul_1_r, round_half_even_1.
      destruct (Z.leb_spec (2 ^ 1024) a) as [Hbig|_].
      * exfalso. apply (Z.lt_irrefl (2 ^ 53)).
        apply Z.lt_le_trans with (2 ^ 1024); [reflexivity|lia].
      * eexists. split; reflexivity.
    + assert (a = 2 ^ 53) by lia. subst a.
      eexists. split; reflexivity.
  - set (k := 2 ^ (- (Z.log2 a - 52))).
    assert (Hk : 0 < k) by (apply Z.pow_pos_nonneg; lia).
    rewrite round_half_even_1.
    eexists. split; [reflexivity|].
    rewrite Qred_correct.
    unfold Qeq. cbn [Qnum Qden inject_Z].
    rewrite Z2Pos.id by assumption. lia.
Qed.

(** Below [2^53] the counter goes up by one. *)
Lemma increment_exact (n : Z) :
  0 <= n < MAX_EXACT -> increment n = n + 1.
Proof.
  intros H. unfold increment, round_double. cbn [inject_Z Qnum Qden].
  destruct (n + 1) eqn:E; try lia.
  rewrite <- E.
  destruct (round_small_integer (n + 1)) as (q & -> & Hq); [lia|].
  apply to_integer_integral, Hq.
Qed.

(** At [2^53] it stays where it is. *)
Lemma increment_saturated : increment MAX_EXACT = MAX_EXACT.
Proof. reflexivity. Qed.

(** ** Strings *)

Lemma trim_start_white (s : jsstring) :
  forallb is_white_space s = true -> trim_start s = [].
Proof.
  induction s as [|c s IH]; cbn [forallb trim_start]; [reflexivity|].
  intros H. apply andb_true_iff in H as [-> Hs]. auto.
Qed.

(** A string of white space trims to the empty string. *)
Lemma trim_white (s : jsstring) :
  forallb is_white_space s = true -> trim s = [].
Proof.
  intros H. unfold trim. rewrite trim_start_white by assumption. reflexivity.
Qed.

(** [name.trim().length === 0] *)
Lemma length_zero (s : jsstring) :
  (Z.of_nat (List.length s) =? 0) = true <-> s = [].
Proof.
  destruct s; cbn [List.length]; split; intros H;
    try reflexivity; discriminate.
Qed.

Lemma length_nonzero (s : jsstring) :
  s <> [] -> (Z.of_nat (List.length s) =? 0) = false.
Proof.
  intros H. destruct (Z.of_nat (List.length s) =? 0) eqn:E; [|reflexivity].
  apply length_zero in E. contradiction.
Qed.

(** ** One [create] *)

(** A finite number that is not below zero passes the age check. *)
Lemma age_check_passes (q : Q) :
  (0 <= q)%Q -> negb (isFinite (Finite q)) || lessThan (Finite q) zero = false.
Proof.
  intros H. cbn [isFinite negb orb lessThan zero].
  apply Qle_bool_iff in H. rewrite H. reflexivity.
Qed.

(** A name that is not a string, or trims to nothing, is turned down
    before the age is looked at. *)
Lemma create_name_rejected (body : value) (s : store) (v a : value) :
  name_and_age body = (v, a) ->
  (forall nm, v = VString nm -> trim nm = []) ->
  create body s = (Sent 400 name_required, s).
Proof.
  intros E H. unfold create. rewrite E.
  destruct v; try reflexivity.
  rewrite (proj2 (length_zero _) (H _ eq_refl)). reflexivity.
Qed.

(** With a good name, the outcome is decided by [Number(age)]. *)
Lemma create_named (body : value) (s : store) (nm : jsstring) (a : value) :
  name_and_age body = (VString nm, a) ->
  trim nm <> [] ->
  create body s =
    match ToNumber a with
    | Throw e => (Thrown e, s)
    | Normal parsedAge =>
        if negb (isFinite parsedAge) || lessThan parsedAge zero then
          (Sent 400 age_invalid, s)
        else
          let resident :=
            {| id := nextResidentId s;
               name := trim nm;
               age := to_integer (trunc parsedAge) |} in
          (Sent 201 (ResidentJson resident),
           {| residents := residents s ++ [resident];
              nextResidentId := increment (nextResidentId s) |})
    end.
Proof.
  intros E H. unfold create. rewrite E, (length_nonzero _ H). reflexivity.
Qed.

(** With a good name, an age that converts to a number that is not finite,
    or is below zero, is turned down. *)
Lemma create_age_rejected (body : value) (s : store) (nm : jsstring)
    (a : value) (n : number) :
  name_and_age body = (VString nm, a) ->
  trim nm <> [] ->
  ToNumber a = Normal n ->
  isFinite n = false \/ lessThan n zero = true ->
  create body s = (Sent 400 age_invalid, s).
Proof.
  intros E H Ha Hn. rewrite (create_named _ _ _ _ E H), Ha.
  destruct Hn as [Hn|Hn]; rewrite Hn; [reflexivity|].
  rewrite orb_true_r. reflexivity.
Qed.

Lemma to_integer_trunc (q : Q) :
  to_integer (trunc (Finite q)) = Z.quot (Qnum q) (Zpos (Qden q)).
Proof. cbn [trunc to_integer inject_Z Qnum Qden]. apply Z.quot_1_r. Qed.

Lemma create_accepted (body : value) (s : store) (nm : jsstring) (a : value)
    (q : Q) :
  name_and_age body = (VString nm, a) ->
  trim nm <> [] ->
  ToNumber a = Normal (Finite q) ->
  (0 <= q)%Q ->
  create body s =
    (Sent 201
       (ResidentJson
          {| id := nextResidentId s;
             name := trim nm;
             age := Z.quot (Qnum q) (Zpos (Qden q)) |}),
     {| residents :=
          residents s ++
            [{| id := nextResidentId s;
                name := trim nm;
                age := Z.quot (Qnum q) (Zpos (Qden q)) |}];
        nextResidentId := increment (nextResidentId s) |}).
Proof.
  intros E H Ha Hq. rewrite (create_named _ _ _ _ E H), Ha.
  rewrite (age_check_passes _ Hq). cbv zeta.
  rewrite to_integer_trunc. reflexivity.
Qed.

(** What a [create] can come to, and what it leaves in the store. *)
Lemma create_cases (body : value) (s : store) :
  create body s = (Sent 400 name_required, s) \/
  create body s = (Sent 400 age_invalid, s) \/
  create body s = (Thrown TypeError, s) \/
  exists r,
    id r = nextResidentId s /\
    create body s =
      (Sent 201 (ResidentJson r),
       {| residents := residents s ++ [r];
          nextResidentId := increment (nextResidentId s) |}).
Proof.
  unfold create. destruct (name_and_age body) as [v a].
  destruct v; auto.
  destruct (Z.of_nat (List.length (trim s0)) =? 0); auto.
  destruct (ToNumber a) as [n|[]]; auto.
  destruct (negb (isFinite n) || lessThan n zero); auto.
  right. right. right. eexists. split; [|reflexivity]. reflexivity.
Qed.

(** ** Arrays *)

Section FindIndex.
Context {A : Type} (p : A -> bool).

Lemma findIndex_range (l : list A) :
  findIndex p l = -1 \/ 0 <= findIndex p l < Z.of_nat (List.length l).
Proof.
  induction l as [|x l IH]; cbn [findIndex List.length]; [left; reflexivity|].
  destruct (p x); [right; lia|].
  destruct (Z.eqb_spec (findIndex p l) (-1)); [left; reflexivity|right; lia].
Qed.

(** [-1] is for a list without a match. *)
Lemma findIndex_none (l : list A) :
  findIndex p l = -1 <-> (forall x, In x l -> p x = false).
Proof.
  induction l as [|x l IH]; cbn [findIndex In].
  - split; [intros _ x []|reflexivity].
  - destruct (p x) eqn:Px.
    + split; [discriminate|]. intros H.
      rewrite (H x (or_introl eq_refl)) in Px. discriminate.
    + destruct (Z.eqb_spec (findIndex p l) (-1)) as [E|E].
      * split; [|reflexivity]. intros _ y [<-|Hy]; [assumption|].
        apply IH; assumption.
      * split.
        -- destruct (findIndex_range l); lia.
        -- intros H. exfalso. apply E, IH. intros y Hy. apply H. auto.
Qed.

(** Any other result is the position of the first match. *)
Lemma findIndex_first (l : list A) :
  findIndex p l <> -1 ->
  exists l1 x l2,
    l = l1 ++ x :: l2 /\ p x = true /\
    (forall y, In y l1 -> p y = false) /\
    findIndex p l = Z.of_nat (List.length l1).
Proof.
  induction l as [|x l IH]; cbn [findIndex]; [contradiction|].
  destruct (p x) eqn:Px.
  - intros _. exists [], x, l. repeat split; auto. intros y [].
  - destruct (Z.eqb_spec (findIndex p l) (-1)) as [E|E]; [contradiction|].
    intros _. destruct (IH E) as (l1 & y & l2 & -> & Py & Hl1 & Hi).
    exists (x :: l1), y, l2. repeat split; auto.
    + intros z [<-|Hz]; auto.
    + cbn [List.length]. lia.
Qed.
End FindIndex.

(** [splice(i, 1)] at a position of the array takes out the element there. *)
Lemma splice_one {A : Type} (l1 l2 : list A) (x : A) :
  splice (l1 ++ x :: l2) (Z.of_nat (List.length l1)) 1 = l1 ++ l2.
Proof.
  unfold splice. rewrite length_app. cbn [List.length].
  destruct (Z.ltb_spec (Z.of_nat (List.length l1)) 0) as [H|_]; [lia|].
  rewrite Z.min_l by lia.
  replace (Z.min (Z.max 1 0) _) with 1 by lia.
  rewrite Nat2Z.id.
  replace (Z.to_nat (Z.of_nat (List.length l1) + 1))
    with (List.length l1 + 1)%nat by lia.
  rewrite firstn_app, Nat.sub_diag, firstn_all. cbn [firstn].
  rewrite app_nil_r. f_equal.
  rewrite skipn_app, skipn_all2 by lia.
  replace (List.length l1 + 1 - List.length l1)%nat with 1%nat by lia.
  reflexivity.
Qed.

(** *** Order-preserving sublists *)

Section Subsequence.
Context {A : Type}.
Implicit Types l : list A.

Lemma subsequence_refl l : subsequence l l.
Proof. induction l; constructor; assumption. Qed.

Lemma subsequence_trans l1 l2 l3 :
  subsequence l1 l2 -> subsequence l2 l3 -> subsequence l1 l3.
Proof.
  intros H12 H23. revert l1 H12.
  induction H23 as [|x l2 l3 _ IH|x l2 l3 _ IH]; intros l1 H12.
  - assumption.
  - inversion H12; subst; constructor; auto.
  - constructor; auto.
Qed.

Lemma subsequence_app l1 l1' l2 l2' :
  subsequence l1 l1' -> subsequence l2 l2' ->
  subsequence (l1 ++ l2) (l1' ++ l2').
Proof.
  intros H1 H2. induction H1; cbn [app]; try constructor; assumption.
Qed.

(** Taking one element out leaves the others in their order. *)
Lemma subsequence_remove l1 l2 (x : A) :
  subsequence (l1 ++ l2) (l1 ++ x :: l2).
Proof.
  apply subsequence_app; [apply subsequence_refl|].
  constructor. apply subsequence_refl.
Qed.

Lemma subsequence_In l l' (x : A) :
  subsequence l l' -> In x l -> In x l'.
Proof.
  induction 1; cbn [In]; [tauto| |]; intuition.
Qed.

Lemma subsequence_NoDup l l' :
  subsequence l l' -> NoDup l' -> NoDup l.
Proof.
  induction 1 as [|x l l' Hs IH|x l l' Hs IH]; intros Hn.
  - assumption.
  - inversion Hn; subst. constructor; auto.
    intros Hx. eauto using subsequence_In.
  - inversion Hn; subst. auto.
Qed.
End Subsequence.

Lemma subsequence_map {A B : Type} (f : A -> B) (l l' : list A) :
  subsequence l l' -> subsequence (map f l) (map f l').
Proof. induction 1; cbn [map]; constructor; assumption. Qed.

(** ** One [delete] *)

(** Two integers that are [===] to the same number are the same. *)
Lemma same_id_unique (n : number) (r r' : Resident) :
  same_id n r = true -> same_id n r' = true -> id r = id r'.
Proof.
  unfold same_id, of_Z. destruct n as [| |q]; cbn [strict_equals];
    try discriminate.
  intros H H'. apply Qeq_bool_iff in H, H'.
  rewrite <- H' in H. unfold Qeq in H. cbn [inject_Z Qnum Qden] in H. lia.
Qed.

Lemma delete_not_found (param : jsstring) (s : store) :
  isFinite (StringToNumber param) = false \/
  (forall r, In r (residents s) -> same_id (StringToNumber param) r = false) ->
  delete param s = (Sent 404 not_found, s).
Proof.
  unfold delete. intros [H|H].
  - rewrite H. reflexivity.
  - apply findIndex_none in H. rewrite H.
    destruct (isFinite (StringToNumber param)); reflexivity.
Qed.

Lemma delete_found (param : jsstring) (s : store) :
  isFinite (StringToNumber param) = true ->
  (exists r, In r (residents s) /\ same_id (StringToNumber param) r = true) ->
  exists l1 r l2,
    residents s = l1 ++ r :: l2 /\
    same_id (StringToNumber param) r = true /\
    (forall y, In y l1 -> same_id (StringToNumber param) y = false) /\
    delete param s =
      (Sent 204 Empty,
       {| residents := l1 ++ l2; nextResidentId := nextResidentId s |}).
Proof.
  intros Hfin (r0 & Hin & Hr0). unfold delete. rewrite Hfin. cbn [negb].
  destruct (findIndex_first (same_id (StringToNumber param)) (residents s))
    as (l1 & r & l2 & E & Hr & Hl1 & Hidx).
  { intros Hnone. rewrite findIndex_none in Hnone.
    rewrite (Hnone _ Hin) in Hr0. discriminate. }
  exists l1, r, l2. repeat split; auto.
  rewrite Hidx, E, splice_one.
  destruct (Z.eqb_spec (Z.of_nat (List.length l1)) (-1)); [lia|reflexivity].
Qed.

(** What a [delete] can come to, and what it leaves in the store. *)
Lemma delete_cases (param : jsstring) (s : store) :
  delete param s = (Sent 404 not_found, s) \/
  exists l1 r l2,
    residents s = l1 ++ r :: l2 /\
    delete param s =
      (Sent 204 Empty,
       {| residents := l1 ++ l2; nextResidentId := nextResidentId s |}).
Proof.
  destruct (isFinite (StringToNumber param)) eqn:Hfin.
  - destruct (Z.eq_dec
                (findIndex (same_id (StringToNumber param)) (residents s))
                (-1)) as [E|E].
    + left. apply delete_not_found. right. apply findIndex_none, E.
    + right.
      destruct (findIndex_first _ _ E) as (l1 & r & l2 & El & Hr & _ & _).
      destruct (delete_found param s Hfin) as (k1 & r' & k2 & ? & _ & _ & ?).
      { exists r. split; [|assumption]. rewrite El. apply in_elt. }
      exists k1, r', k2. auto.
  - left. apply delete_not_found. left. assumption.
Qed.

(** With unique ids, no match is left once the first one is out. *)
Lemma no_match_left (n : number) (l1 l2 : list Resident) (r : Resident) :
  NoDup (map id (l1 ++ r :: l2)) ->
  same_id n r = true ->
  forall y, In y (l1 ++ l2) -> same_id n y = false.
Proof.
  intros Hn Hr y Hy.
  destruct (same_id n y) eqn:Hsame; [|reflexivity]. exfalso.
  rewrite map_app in Hn. cbn [map] in Hn.
  apply NoDup_remove_2 in Hn. apply Hn.
  rewrite (same_id_unique _ _ _ Hr Hsame), <- map_app.
  apply in_map, Hy.
Qed.

(** ** Sequences of requests *)

Lemma handle_effect (rq : request) (s : store) :
  effect s (fst (handle rq s)) (snd (handle rq s)).
Proof.
  destruct rq as [|body|param]; cbn [handle].
  - apply effect_none. reflexivity.
  - destruct (create_cases body s) as [E|[E|[E|(r & Hr & E)]]]; rewrite E;
      cbn [fst snd]; try (apply effect_none; reflexivity).
    apply effect_create, Hr.
  - destruct (delete_cases param s) as [E|(l1 & r & l2 & Hl & E)]; rewrite E;
      cbn [fst snd]; [apply effect_none; reflexivity|].
    eapply effect_delete, Hl.
Qed.

Lemma serve_cons (rq : request) (rqs : list request) (s : store) :
  serve (rq :: rqs) s =
    (fst (handle rq s) :: fst (serve rqs (snd (handle rq s))),
     snd (serve rqs (snd (handle rq s)))).
Proof.
  cbn [serve]. destruct (handle rq s) as [o s1]. cbn [fst snd].
  destruct (serve rqs s1). reflexivity.
Qed.

Lemma serve_app (rqs1 rqs2 : list request) (s : store) :
  serve (rqs1 ++ rqs2) s =
    (fst (serve rqs1 s) ++ fst (serve rqs2 (snd (serve rqs1 s))),
     snd (serve rqs2 (snd (serve rqs1 s)))).
Proof.
  revert s. induction rqs1 as [|rq rqs1 IH]; intros s.
  - cbn [app serve fst snd]. destruct (serve rqs2 s). reflexivity.
  - rewrite <- app_comm_cons, !serve_cons, IH. reflexivity.
Qed.

Lemma created_cons_none (o : outcome) (os : list outcome) :
  created [o] = [] -> created (o :: os) = created os.
Proof.
  destruct o as [st [| |r|]|]; cbn [created]; try reflexivity.
  destruct (st =? 201); [discriminate|reflexivity].
Qed.

Lemma created_cons_201 (r : Resident) (os : list outcome) :
  created (Sent 201 (ResidentJson r) :: os) = r :: created os.
Proof. reflexivity. Qed.

Lemma created_app (os1 os2 : list outcome) :
  created (os1 ++ os2) = created os1 ++ created os2.
Proof.
  induction os1 as [|o os1 IH]; [reflexivity|].
  rewrite <- app_comm_cons.
  destruct o as [st [| |r|]|]; cbn [created]; try assumption.
  destruct (st =? 201); [|assumption].
  rewrite IH. reflexivity.
Qed.

(** The counter, as long as it starts in [1 .. 2^53]. *)
Lemma increment_min (n : Z) :
  1 <= n <= MAX_EXACT -> increment n = Z.min (n + 1) MAX_EXACT.
Proof.
  intros H. destruct (Z.eq_dec n MAX_EXACT) as [->|Hn].
  - rewrite increment_saturated. lia.
  - rewrite increment_exact by lia. lia.
Qed.

(** The residents in the store are residents who were there or were
    created, in that order. *)
Lemma serve_order (rqs : list request) (s : store) :
  subsequence (residents (snd (serve rqs s)))
    (residents s ++ created (fst (serve rqs s))).
Proof.
  revert s. induction rqs as [|rq rqs IH]; intros s.
  - cbn [serve fst snd created]. rewrite app_nil_r. apply subsequence_refl.
  - rewrite serve_cons. cbn [fst snd].
    specialize (IH (snd (handle rq s))).
    destruct (handle_effect rq s) as [o Ho|r Hr|l1 r l2 Hl].
    + rewrite created_cons_none; assumption.
    + rewrite created_cons_201. cbn [residents] in *.
      rewrite <- app_assoc in IH. exact IH.
    + cbn [created residents] in *. rewrite Hl.
      eapply subsequence_trans; [exact IH|].
      rewrite <- !app_assoc, <- app_comm_cons. apply subsequence_remove.
Qed.

Lemma serve_ids (rqs : list request) (s : store) :
  1 <= nextResidentId s <= MAX_EXACT ->
  map id (created (fst (serve rqs s))) =
    map (nth_id (nextResidentId s))
      (seq 0 (List.length (created (fst (serve rqs s))))).
Proof.
  revert s. induction rqs as [|rq rqs IH]; intros s Hs; [reflexivity|].
  rewrite serve_cons. cbn [fst snd].
  specialize (IH (snd (handle rq s))).
  destruct (handle_effect rq s) as [o Ho|r Hr|l1 r l2 Hl].
  - rewrite created_cons_none by assumption. auto.
  - rewrite created_cons_201. cbn [nextResidentId List.length map seq] in *.
    rewrite <- seq_shift, map_map, IH by (rewrite increment_min; lia).
    f_equal.
    + unfold nth_id. rewrite Hr. lia.
    + apply map_ext. intros k. unfold nth_id.
      rewrite increment_min by lia. lia.
  - cbn [created nextResidentId] in *. auto.
Qed.

(** [delete] leaves the counter alone. *)
Lemma delete_counter (param : jsstring) (s : store) :
  nextResidentId (snd (delete param s)) = nextResidentId s.
Proof.
  destruct (delete_cases param s) as [E|(l1 & r & l2 & _ & E)]; rewrite E;
    reflexivity.
Qed.

Lemma nth_id_at (rqs : list request) (n : nat) :
  (n < List.length (map id (created (fst (serve rqs initial)))))%nat ->
  nth n (map id (created (fst (serve rqs initial)))) 0 = nth_id 1 n.
Proof.
  intros Hn. rewrite length_map in Hn.
  rewrite (serve_ids rqs initial) by (cbn; unfold MAX_EXACT; lia).
  change (nextResidentId initial) with 1.
  rewrite (nth_indep _ 0 (nth_id 1 0)) by (rewrite length_map, length_seq; lia).
  rewrite map_nth, seq_nth by assumption. reflexivity.
Qed.

(** ** Example requests *)

Example age_35_7_rounds : round_double (357 # 10) = Finite age_35_7.
Proof. reflexivity. Qed.

Lemma name_and_age_request_body (nm : jsstring) (a : value) :
  name_and_age (request_body nm a) = (VString nm, a).
Proof. reflexivity. Qed.

Lemma create_jane_doe (s : store) :
  create jane_doe s =
    (Sent 201 (ResidentJson (jane (nextResidentId s))),
     {| residents := residents s ++ [jane (nextResidentId s)];
        nextResidentId := increment (nextResidentId s) |}).
Proof.
  unfold jane_doe.
  rewrite (create_accepted _ s (lit "Jane Doe") _ age_35_7
             (name_and_age_request_body _ _)); try reflexivity; discriminate.
Qed.

(** The ages [-1] and ["abc"] are turned down, and the store stays as it
    was. *)
Example create_negative_age (s : store) :
  create (request_body (lit "Jane Doe") (VNumber (of_Z (-1)))) s =
    (Sent 400 age_invalid, s).
Proof. reflexivity. Qed.

Example create_age_abc (s : store) :
  create (request_body (lit "Jane Doe") (VString (lit "abc"))) s =
    (Sent 400 age_invalid, s).
Proof. reflexivity. Qed.

(** Post, list, delete, list, on a fresh registry. *)
Example scenario :
  serve [Create jane_doe; List; Delete (lit "1"); List] initial =
    ([Sent 201 (ResidentJson (jane 1));
      Sent 200 (ResidentsJson [jane 1]);
      Sent 204 Empty;
      Sent 200 (ResidentsJson [])],
     {| residents := []; nextResidentId := 2 |}).
Proof. reflexivity. Qed.

(** Ids that were never given out, and parameters that are no numbers. *)
Example delete_unknown :
  delete (lit "9999") {| residents := [jane 1]; nextResidentId := 2 |} =
    (Sent 404 not_found, {| residents := [jane 1]; nextResidentId := 2 |}) /\
  delete (lit "abc") {| residents := [jane 1]; nextResidentId := 2 |} =
    (Sent 404 not_found, {| residents := [jane 1]; nextResidentId := 2 |}).
Proof. split; reflexivity. Qed.

(** ** Running the counter out *)

Lemma MAX_EXACT_positive : 1 < MAX_EXACT.
Proof. reflexivity. Qed.

Lemma digits_from_app (base acc : Z) (l1 l2 : jsstring) :
  digits_from base acc (l1 ++ l2) =
    match digits_from base acc l1 with
    | Some acc' => digits_from base acc' l2
    | None => None
    end.
Proof.
  revert acc. induction l1 as [|c l1 IH]; intros acc; cbn [app digits_from].
  - reflexivity.
  - destruct (digit_value c) as [d|]; [|reflexivity].
    destruct (d <? base); [apply IH|reflexivity].
Qed.

Lemma digits_from_binary (p : positive) :
  digits_from 2 0 (binary p) = Some (Zpos p).
Proof.
  induction p as [p IH|p IH|]; cbn [binary]; [| |reflexivity];
    rewrite digits_from_app, IH.
  - change (digits_from 2 (Zpos p) [49%N]) with (Some (2 * Zpos p + 1)).
    f_equal.
  - change (digits_from 2 (Zpos p) [48%N]) with (Some (2 * Zpos p + 0)).
    f_equal.
Qed.

Lemma binary_last (p : positive) :
  exists l c, binary p = l ++ [c] /\ is_white_space c = false.
Proof.
  destruct p as [p|p|]; cbn [binary].
  - exists (binary p), 49%N. split; reflexivity.
  - exists (binary p), 48%N. split; reflexivity.
  - exists [], 49%N. split; reflexivity.
Qed.

Lemma trim_binary_literal (p : positive) :
  trim (48%N :: 98%N :: binary p) = 48%N :: 98%N :: binary p.
Proof.
  destruct (binary_last p) as (l & c & -> & Hc).
  unfold trim. change (trim_start (48%N :: 98%N :: l ++ [c]))
    with (48%N :: 98%N :: l ++ [c]).
  unfold trim_end.
  change (48%N :: 98%N :: l ++ [c]) with ((48%N :: 98%N :: l) ++ [c]).
  rewrite rev_unit. cbn [trim_start]. rewrite Hc.
  change (c :: rev (48%N :: 98%N :: l)) with ([c] ++ rev (48%N :: 98%N :: l)).
  rewrite rev_app_distr, rev_involutive. reflexivity.
Qed.

(** [Number] reads the binary literal of an integer up to [2^53] as that
    integer. *)
Lemma StringToNumber_binary_literal (k : Z) :
  0 < k <= MAX_EXACT ->
  exists q,
    StringToNumber (binary_literal k) = Finite q /\ (q == inject_Z k)%Q.
Proof.
  intros Hk. destruct k as [|p|p]; try lia.
  destruct (round_small_integer (Zpos p) Hk) as (q & Hq & Hv).
  exists q. split; [|exact Hv].
  unfold StringToNumber, binary_literal.
  change (lit "0b" ++ binary p) with (48%N :: 98%N :: binary p).
  rewrite trim_binary_literal.
  change (non_decimal_literal (48%N :: 98%N :: binary p))
    with (digits 2 (binary p)).
  assert (Hd : digits 2 (binary p) = Some (Zpos p)).
  { unfold digits. rewrite digits_from_binary.
    destruct (binary_last p) as (l & c & -> & _). destruct l; reflexivity. }
  rewrite Hd. exact Hq.
Qed.

(** Deleting by the binary literal of the first resident's id takes that
    resident out. *)
Lemma delete_first_resident (k n : Z) (r : Resident) (l : list Resident) :
  0 < k <= MAX_EXACT ->
  id r = k ->
  delete (binary_literal k) {| residents := r :: l; nextResidentId := n |} =
    (Sent 204 Empty, {| residents := l; nextResidentId := n |}).
Proof.
  intros Hk Hr.
  destruct (StringToNumber_binary_literal k Hk) as (q & Hq & Hv).
  unfold delete. rewrite Hq. cbn [isFinite negb residents findIndex].
  unfold same_id, of_Z. cbn [strict_equals]. rewrite Hr.
  assert (E : Qeq_bool (inject_Z k) q = true).
  { apply Qeq_bool_iff. symmetry. exact Hv. }
  rewrite E. cbn [Z.eqb nextResidentId].
  f_equal. f_equal. exact (splice_one [] l r).
Qed.

(** A round of [churn] on an empty collection leaves it empty and the
    counter one further. *)
Lemma serve_churn (n : nat) (k : Z) :
  0 < k ->
  k + Z.of_nat n <= MAX_EXACT ->
  snd (serve (churn n k) {| residents := []; nextResidentId := k |}) =
    {| residents := []; nextResidentId := k + Z.of_nat n |} /\
  List.length
    (created
       (fst (serve (churn n k) {| residents := []; nextResidentId := k |})))
  = n.
Proof.
  revert k. induction n as [|n IH]; intros k Hk Hmax.
  - cbn [churn serve fst snd created List.length]. rewrite Z.add_0_r. auto.
  - cbn [churn]. rewrite !serve_cons. cbn [handle].
    rewrite create_jane_doe. cbn [fst snd residents nextResidentId app].
    rewrite increment_exact by lia.
    rewrite (delete_first_resident k (k + 1) (jane k) []) by (reflexivity || lia).
    cbn [fst snd]. rewrite created_cons_201. cbn [created List.length].
    destruct (IH (k + 1)) as [-> ->]; try lia.
    split; [f_equal; lia|reflexivity].
Qed.

(** Rounds that take the counter to [2^53], and two more creates. *)
Lemma serve_churn_then_two (n : nat) :
  1 + Z.of_nat n = MAX_EXACT ->
  snd (serve (churn n 1 ++ [Create jane_doe; Create jane_doe]) initial) =
    {| residents := [jane MAX_EXACT; jane MAX_EXACT];
       nextResidentId := MAX_EXACT |} /\
  List.length
    (created
       (fst (serve (churn n 1 ++ [Create jane_doe; Create jane_doe]) initial)))
  = S (S n).
Proof.
  intros Hn. rewrite serve_app. cbn [fst snd].
  destruct (serve_churn n 1) as [Hs Hl]; try lia.
  unfold initial. rewrite Hs, created_app, length_app, Hl, Hn.
  rewrite !serve_cons. cbn [handle serve fst snd].
  rewrite !create_jane_doe. cbn [fst snd residents nextResidentId app].
  rewrite increment_saturated, !created_cons_201.
  cbn [created List.length]. split; [reflexivity|lia].
Qed.

(** Where [exhausting] leaves the registry. *)
Lemma serve_exhausting :
  snd (serve exhausting initial) =
    {| residents := [jane MAX_EXACT; jane MAX_EXACT];
       nextResidentId := MAX_EXACT |} /\
  List.length (created (fst (serve exhausting initial))) =
    S (S (Z.to_nat (MAX_EXACT - 1))).
Proof.
  apply serve_churn_then_two. pose proof MAX_EXACT_positive. lia.
Qed.

(** * The claims *)

(** C1. A [create] whose name is a string that is not empty once trimmed,
    and whose age converts to a finite number that is at least zero, gives
    the new resident the current value of the counter as id (the counter
    starts at 1), the trimmed name and the age truncated toward zero;
    appends that resident to the end of the collection; and answers 201
    with exactly that resident. *)
Theorem create_valid (body : value) (s : store) (nm : jsstring) (a : value)
    (q : Q) :
  name_and_age body = (VString nm, a) ->
  trim nm <> [] ->
  ToNumber a = Normal (Finite q) ->
  (0 <= q)%Q ->
  let r :=
    {| id := nextResidentId s;
       name := trim nm;
       age := Z.quot (Qnum q) (Zpos (Qden q)) |} in
  nextResidentId initial = 1 /\
  create body s =
    (Sent 201 (ResidentJson r),
     {| residents := residents s ++ [r];
        nextResidentId := increment (nextResidentId s) |}).
Proof.
  intros E H Ha Hq r. split; [reflexivity|].
  apply (create_accepted body s nm a q); assumption.
Qed.

(** The scenario of the specification: [{"name":"Jane Doe","age":35.7}]
    posted to a fresh registry. *)
Lemma create_valid_witness :
  nextResidentId initial = 1 /\
  create jane_doe initial =
    (Sent 201 (ResidentJson {| id := 1; name := lit "Jane Doe"; age := 35 |}),
     {| residents := [{| id := 1; name := lit "Jane Doe"; age := 35 |}];
        nextResidentId := 2 |}).
Proof.
  apply (create_valid jane_doe initial (lit "Jane Doe")
           (VNumber (Finite age_35_7)) age_35_7).
  - reflexivity.
  - discriminate.
  - reflexivity.
  - discriminate.
Defined.

(** C2, as the code has it.  [delete] answers 404 with the not-found
    message, and leaves the collection as it is, when the parameter does
    not parse to a finite number or no stored resident has the parsed
    number as id.  Otherwise it takes out the first resident with that id
    and answers 204 with an empty body.  When the ids in the collection are
    unique, that resident was the only match: the id is then gone from what
    [list] returns, and a second [delete] of the same id answers 404. *)
Theorem delete_by_id (param : jsstring) (s : store) :
  let n := StringToNumber param in
  (isFinite n = false \/
   (forall r, In r (residents s) -> same_id n r = false) ->
   delete param s = (Sent 404 not_found, s)) /\
  (isFinite n = true ->
   (exists r, In r (residents s) /\ same_id n r = true) ->
   exists l1 r l2,
     residents s = l1 ++ r :: l2 /\
     same_id n r = true /\
     (forall y, In y l1 -> same_id n y = false) /\
     delete param s =
       (Sent 204 Empty,
        {| residents := l1 ++ l2; nextResidentId := nextResidentId s |}) /\
     (NoDup (map id (residents s)) ->
      (forall y, In y (l1 ++ l2) -> same_id n y = false) /\
      fst (list_all (snd (delete param s))) =
        Sent 200 (ResidentsJson (l1 ++ l2)) /\
      delete param (snd (delete param s)) =
        (Sent 404 not_found, snd (delete param s)))) /\
  not_found = ErrorJson (lit "error") (lit "Resident not found").
Proof.
  intros n. split; [apply delete_not_found|]. split; [|reflexivity].
  intros Hfin Hex.
  destruct (delete_found param s Hfin Hex) as (l1 & r & l2 & E & Hr & Hl1 & Hd).
  exists l1, r, l2. repeat (split; [assumption|]).
  intros Hu. rewrite E in Hu.
  pose proof (no_match_left n l1 l2 r Hu Hr) as Hgone.
  split; [exact Hgone|]. rewrite Hd. cbn [snd]. split; [reflexivity|].
  apply delete_not_found. right. exact Hgone.
Qed.

(** Two residents, the first one deleted twice. *)
Lemma delete_by_id_witness :
  let s := {| residents := [jane 1; jane 2]; nextResidentId := 3 |} in
  exists l,
    delete (lit "1") s =
      (Sent 204 Empty, {| residents := l; nextResidentId := 3 |}) /\
    (forall y, In y l -> same_id (of_Z 1) y = false) /\
    delete (lit "1") {| residents := l; nextResidentId := 3 |} =
      (Sent 404 not_found, {| residents := l; nextResidentId := 3 |}).
Proof.
  intros s.
  destruct (delete_by_id (lit "1") s) as (_ & Hfound & _).
  destruct (Hfound eq_refl) as (l1 & r & l2 & _ & _ & _ & Hd & Hu).
  { exists (jane 1). split; [left|]; reflexivity. }
  destruct Hu as (Hgone & _ & Hagain).
  { repeat constructor; cbn [map id jane In]; intuition discriminate. }
  exists (l1 ++ l2). rewrite Hd in Hagain. cbn [snd] in Hagain.
  split; [exact Hd|]. split; [exact Hgone|exact Hagain].
Defined.

(** C2 as stated fails where two residents share an id: after
    [exhausting], deleting the id [2^53] answers 204 and takes out the
    first of the two, the id is still in what [list] returns, and a second
    delete of the same id answers 204 again, not 404. *)
Lemma delete_leaves_same_id :
  let s := snd (serve exhausting initial) in
  let param := binary_literal MAX_EXACT in
  delete param s =
    (Sent 204 Empty,
     {| residents := [jane MAX_EXACT]; nextResidentId := MAX_EXACT |}) /\
  fst (list_all (snd (delete param s))) =
    Sent 200 (ResidentsJson [jane MAX_EXACT]) /\
  fst (delete param (snd (delete param s))) = Sent 204 Empty /\
  fst (delete param (snd (delete param s))) <> Sent 404 not_found.
Proof.
  intros s param. unfold s, param.
  destruct serve_exhausting as [-> _].
  pose proof MAX_EXACT_positive as Hpos.
  rewrite !delete_first_resident by (reflexivity || lia).
  cbn [fst snd]. rewrite !delete_first_resident by (reflexivity || lia).
  cbn [fst snd list_all residents].
  split; [reflexivity|]. split; [reflexivity|]. split; [reflexivity|].
  discriminate.
Qed.

(** C3, as the code has it.  Up to [2^53] the [n]-th successful [create]
    of the process receives the id [n], whatever was deleted in between, so
    up to there the ids strictly increase and none is given twice; the ids
    given out never decrease; and [delete] leaves the counter as it is. *)
Theorem ids_sequential (rqs : list request) :
  let ids := map id (created (fst (serve rqs initial))) in
  (forall n, (n < List.length ids)%nat -> Z.of_nat n < MAX_EXACT ->
             nth n ids 0 = Z.of_nat n + 1) /\
  (forall i j, (i < j)%nat -> (j < List.length ids)%nat ->
               Z.of_nat j < MAX_EXACT -> nth i ids 0 < nth j ids 0) /\
  (forall i j, (i <= j)%nat -> (j < List.length ids)%nat ->
               nth i ids 0 <= nth j ids 0) /\
  (forall param s, nextResidentId (snd (delete param s)) = nextResidentId s).
Proof.
  intros ids. repeat split.
  - intros n Hn Hmax. unfold ids. rewrite nth_id_at by assumption.
    unfold nth_id. lia.
  - intros i j Hij Hj Hmax. unfold ids in *.
    rewrite !nth_id_at by lia. unfold nth_id. lia.
  - intros i j Hij Hj. unfold ids in *.
    rewrite !nth_id_at by lia. unfold nth_id. lia.
  - apply delete_counter.
Qed.

(** The second and third of three creates with a delete in between. *)
Lemma ids_sequential_witness :
  let ids :=
    map id
      (created
         (fst (serve [Create jane_doe; Delete (lit "1"); Create jane_doe;
                      Create jane_doe] initial))) in
  nth 1 ids 0 = 2 /\ nth 1 ids 0 < nth 2 ids 0 /\ nth 1 ids 0 <= nth 2 ids 0.
Proof.
  intros ids.
  destruct (ids_sequential
              [Create jane_doe; Delete (lit "1"); Create jane_doe;
               Create jane_doe])
    as (Hnth & Hlt & Hle & _).
  split; [|split].
  - apply (Hnth 1%nat); [vm_compute; lia|reflexivity].
  - apply (Hlt 1%nat 2%nat); [lia|vm_compute; lia|reflexivity].
  - apply (Hle 1%nat 2%nat); [lia|vm_compute; lia].
Defined.

(** C3 as stated fails once the counter has reached [2^53]: in
    [exhausting], the create number [2^53] and the create number
    [2^53 + 1] both receive the id [2^53]. *)
Lemma ids_reused_after_2_53 :
  let ids := map id (created (fst (serve exhausting initial))) in
  let i := Z.to_nat (MAX_EXACT - 1) in
  let j := Z.to_nat MAX_EXACT in
  (i < j < List.length ids)%nat /\
  nth i ids 0 = MAX_EXACT /\
  nth j ids 0 = MAX_EXACT /\
  nth j ids 0 <> Z.of_nat j + 1 /\
  ~ nth i ids 0 < nth j ids 0.
Proof.
  intros ids i j. pose proof MAX_EXACT_positive as Hpos.
  destruct serve_exhausting as [_ Hlen].
  assert (Hl : List.length ids = S (S (Z.to_nat (MAX_EXACT - 1)))).
  { unfold ids. rewrite length_map. exact Hlen. }
  assert (Hi : nth i ids 0 = MAX_EXACT).
  { unfold ids. rewrite nth_id_at by (fold ids; lia). unfold nth_id. lia. }
  assert (Hj : nth j ids 0 = MAX_EXACT).
  { unfold ids. rewrite nth_id_at by (fold ids; lia). unfold nth_id. lia. }
  rewrite Hi, Hj. repeat split; lia.
Qed.

(** C4. The name is checked first: when it is not a string, or trims to the
    empty string, [create] answers 400 with the name message, whatever the
    age is (a valid one, an invalid one, one whose conversion would
    throw), and nothing else happens. *)
Theorem create_name_first (body : value) (s : store) (v a : value) :
  name_and_age body = (v, a) ->
  (forall nm, v = VString nm -> trim nm = []) ->
  create body s = (Sent 400 name_required, s) /\
  name_required =
    ErrorJson (lit "error")
      (lit "Field " ++ quote ++ lit "name" ++ quote ++ lit " is required").
Proof.
  intros E H. split; [|reflexivity].
  eapply create_name_rejected; eassumption.
Qed.

(** A blank name with an age that would make [Number] throw. *)
Lemma create_name_first_witness :
  create
    (request_body (lit "   ") (VObject [(lit "toString", VNull)]))
    initial
  = (Sent 400 name_required, initial).
Proof.
  apply (create_name_first _ initial (VString (lit "   "))
           (VObject [(lit "toString", VNull)])).
  - reflexivity.
  - intros nm E. injection E as <-. reflexivity.
Defined.

(** C5, at an age whose conversion throws: the body
    [{"name":"Jane Doe","age":{"toString":null}}] has a valid name and an
    age that does not convert to a number, and [create] does not answer
    400 with the age message: [Number(age)] throws a [TypeError] out of
    the handler. *)
Theorem create_age_conversion_throws (s : store) :
  let age_ := VObject [(lit "toString", VNull)] in
  ToNumber age_ = Throw TypeError /\
  create (request_body (lit "Jane Doe") age_) s = (Thrown TypeError, s) /\
  fst (create (request_body (lit "Jane Doe") age_) s) <> Sent 400 age_invalid.
Proof.
  cbv zeta. repeat split. discriminate.
Qed.

(** C6. A [create] answered with 400 and a [delete] answered with 404 leave
    the collection and the counter as they were. *)
Theorem failed_requests_atomic (s : store) :
  (forall body p, fst (create body s) = Sent 400 p ->
                  snd (create body s) = s) /\
  (forall param p, fst (delete param s) = Sent 404 p ->
                   snd (delete param s) = s).
Proof.
  split.
  - intros body p.
    destruct (create_cases body s) as [E|[E|[E|(r & _ & E)]]]; rewrite E;
      cbn [fst snd]; try reflexivity.
    discriminate.
  - intros param p.
    destruct (delete_cases param s) as [E|(l1 & r & l2 & _ & E)]; rewrite E;
      cbn [fst snd]; [reflexivity|discriminate].
Qed.

(** A blank name, a negative age and an unknown id, on a store with one
    resident. *)
Lemma failed_requests_atomic_witness :
  let s := {| residents := [jane 1]; nextResidentId := 2 |} in
  snd (create (request_body (lit "   ") (VNumber (of_Z 3))) s) = s /\
  snd (create (request_body (lit "Jane Doe") (VNumber (of_Z (-1)))) s) = s /\
  snd (delete (lit "9999") s) = s.
Proof.
  intros s. destruct (failed_requests_atomic s) as [Hc Hd].
  split; [|split].
  - apply (Hc _ name_required). reflexivity.
  - apply (Hc _ age_invalid). reflexivity.
  - apply (Hd _ not_found). reflexivity.
Defined.

(** C7. [list] answers 200 with the stored residents as the store has
    them, and leaves the store as it is; on an empty collection that is the
    empty array.  The store has them in insertion order: a [create]
    appends at the end, a [delete] keeps the others in their order, and
    after any sequence of requests the residents in the store are, in
    order of creation, residents that were created. *)
Theorem list_in_insertion_order :
  (forall s, list_all s = (Sent 200 (ResidentsJson (residents s)), s)) /\
  (forall n,
      list_all {| residents := []; nextResidentId := n |} =
        (Sent 200 (ResidentsJson []),
         {| residents := []; nextResidentId := n |})) /\
  (forall body s,
      residents (snd (create body s)) = residents s \/
      exists r,
        fst (create body s) = Sent 201 (ResidentJson r) /\
        residents (snd (create body s)) = residents s ++ [r]) /\
  (forall param s,
      subsequence (residents (snd (delete param s))) (residents s)) /\
  (forall rqs,
      subsequence (residents (snd (serve rqs initial)))
        (created (fst (serve rqs initial)))).
Proof.
  repeat split.
  - intros body s.
    destruct (create_cases body s) as [E|[E|[E|(r & _ & E)]]]; rewrite E;
      cbn [fst snd residents]; eauto.
  - intros param s.
    destruct (delete_cases param s) as [E|(l1 & r & l2 & Hl & E)]; rewrite E;
      cbn [fst snd residents].
    + apply subsequence_refl.
    + rewrite Hl. apply subsequence_remove.
  - intros rqs. apply (serve_order rqs initial).
Qed.

(** C8, as the code has it.  As long as no more than [2^53] residents have
    been created, no two residents in the collection have the same id. *)
Theorem ids_unique (rqs : list request) :
  Z.of_nat (List.length (created (fst (serve rqs initial)))) <= MAX_EXACT ->
  NoDup (map id (residents (snd (serve rqs initial)))).
Proof.
  intros Hmax.
  apply subsequence_NoDup with (map id (created (fst (serve rqs initial)))).
  - apply subsequence_map, (serve_order rqs initial).
  - rewrite (serve_ids rqs initial) by (cbn; unfold MAX_EXACT; lia).
    apply NoDup_map_NoDup_ForallPairs; [|apply seq_NoDup].
    intros i j Hi Hj. apply in_seq in Hi, Hj.
    change (nextResidentId initial) with 1. unfold nth_id. lia.
Qed.

Lemma ids_unique_witness :
  NoDup
    (map id
       (residents
          (snd (serve [Create jane_doe; Create jane_doe; Delete (lit "1");
                       Create jane_doe] initial)))).
Proof.
  apply ids_unique. vm_compute. discriminate.
Defined.

(** C8 as stated fails there too: [exhausting] leaves two residents in
    the collection, both with the id [2^53]. *)
Lemma ids_duplicated_after_2_53 :
  map id (residents (snd (serve exhausting initial))) =
    [MAX_EXACT; MAX_EXACT] /\
  ~ NoDup (map id (residents (snd (serve exhausting initial)))).
Proof.
  destruct serve_exhausting as [-> _]. cbn [residents map id jane].
  split; [reflexivity|].
  intros H. inversion H as [|x l Hx _]; subst. apply Hx. left. reflexivity.
Qed.

(** C9. The age is judged by the number it coerces to, not by its type:
    [null], the empty string, a string of white space and the booleans are
    accepted (stored as 0, and as 1 for [true]), as is every value that
    [Number] maps to a finite number that is at least zero; and two ages
    with the same coercion get the same outcome. *)
Theorem create_coerces_age (s : store) (nm : jsstring) :
  trim nm <> [] ->
  let accepted (a : value) (stored : Z) :=
    create (request_body nm a) s =
      (Sent 201
         (ResidentJson
            {| id := nextResidentId s; name := trim nm; age := stored |}),
       {| residents :=
            residents s ++
              [{| id := nextResidentId s; name := trim nm; age := stored |}];
          nextResidentId := increment (nextResidentId s) |}) in
  accepted VNull 0 /\
  accepted (VString []) 0 /\
  (forall ws, forallb is_white_space ws = true -> accepted (VString ws) 0) /\
  accepted (VBool false) 0 /\
  accepted (VBool true) 1 /\
  (forall a q, ToNumber a = Normal (Finite q) -> (0 <= q)%Q ->
               accepted a (Z.quot (Qnum q) (Zpos (Qden q)))) /\
  (forall body body' a a',
      name_and_age body = (VString nm, a) ->
      name_and_age body' = (VString nm, a') ->
      ToNumber a = ToNumber a' ->
      create body s = create body' s).
Proof.
  intros H accepted.
  assert (Hgen : forall a q, ToNumber a = Normal (Finite q) -> (0 <= q)%Q ->
                             accepted a (Z.quot (Qnum q) (Zpos (Qden q)))).
  { intros a q Ha Hq. unfold accepted.
    apply (create_accepted _ s nm a q); auto using name_and_age_request_body. }
  repeat split.
  - apply (Hgen VNull 0%Q); [reflexivity|discriminate].
  - apply (Hgen (VString []) 0%Q); [reflexivity|discriminate].
  - intros ws Hws. apply (Hgen (VString ws) 0%Q); [|discriminate].
    cbn [ToNumber]. unfold StringToNumber. rewrite (trim_white _ Hws).
    reflexivity.
  - apply (Hgen (VBool false) 0%Q); [reflexivity|discriminate].
  - apply (Hgen (VBool true) 1%Q); [reflexivity|discriminate].
  - exact Hgen.
  - intros body body' a a' E E' Ha.
    rewrite (create_named _ _ _ _ E H), (create_named _ _ _ _ E' H), Ha.
    reflexivity.
Qed.

(** The ages [null], [""], tab-and-space, [false] and [true] for
    ["Jane Doe"] on a fresh registry. *)
Lemma create_coerces_age_witness :
  fst (create (request_body (lit "Jane Doe") VNull) initial)
    = Sent 201 (ResidentJson (mkResident 1 (lit "Jane Doe") 0)) /\
  fst (create (request_body (lit "Jane Doe") (VString [])) initial)
    = Sent 201 (ResidentJson (mkResident 1 (lit "Jane Doe") 0)) /\
  fst (create (request_body (lit "Jane Doe") (VString [9; 32]%N)) initial)
    = Sent 201 (ResidentJson (mkResident 1 (lit "Jane Doe") 0)) /\
  fst (create (request_body (lit "Jane Doe") (VBool true)) initial)
    = Sent 201 (ResidentJson (mkResident 1 (lit "Jane Doe") 1)).
Proof.
  assert (H : trim (lit "Jane Doe") <> []) by discriminate.
  destruct (create_coerces_age initial (lit "Jane Doe") H)
    as (Hnull & Hempty & Hwhite & _ & Htrue & _).
  split; [|split; [|split]].
  - rewrite Hnull. reflexivity.
  - rewrite Hempty. reflexivity.
  - rewrite (Hwhite [9; 32]%N eq_refl). reflexivity.
  - rewrite Htrue. reflexivity.
Defined.

(** C10. [create] does not throw on a missing body or a body without a
    name: with [req.body] [undefined] or [null], or an object that has no
    [name], it answers 400 with the name message and leaves the store as
    it was. *)
Theorem create_without_name (body : value) (s : store) :
  body = VUndefined \/ body = VNull \/
  (exists props,
      body = VObject props /\ own_property (lit "name") props = None) ->
  create body s = (Sent 400 name_required, s) /\
  (forall e, fst (create body s) <> Thrown e).
Proof.
  intros H.
  assert (E : create body s = (Sent 400 name_required, s)).
  { destruct H as [->|[->|(props & -> & Hp)]]; try reflexivity.
    apply (create_name_rejected _ s VUndefined (get (VObject props) (lit "age"))).
    - unfold name_and_age, or_else. cbn [ToBoolean get]. rewrite Hp.
      reflexivity.
    - discriminate. }
  split; [exact E|]. rewrite E. discriminate.
Qed.

(** No body, a [null] body, and [{"age": 35.7}]. *)
Lemma create_without_name_witness :
  create VUndefined initial = (Sent 400 name_required, initial) /\
  create VNull initial = (Sent 400 name_required, initial) /\
  create (VObject [(lit "age", VNumber (Finite age_35_7))]) initial
    = (Sent 400 name_required, initial).
Proof.
  split; [|split].
  - apply (create_without_name VUndefined initial). left. reflexivity.
  - apply (create_without_name VNull initial). right. left. reflexivity.
  - apply (create_without_name _ initial). right. right.
    eexists. split; reflexivity.
Defined.

(** * Further properties of the handlers *)

(** ** Trimmed strings *)

Lemma trim_start_head (s : jsstring) (c : N) (t : jsstring) :
  trim_start s = c :: t -> is_white_space c = false.
Proof.
  induction s as [|x s IH]; cbn [trim_start]; [discriminate|].
  destruct (is_white_space x) eqn:Hx; [exact IH|].
  intros E. injection E as <- _. exact Hx.
Qed.

Lemma trim_start_keeps (c : N) (t : jsstring) :
  is_white_space c = false -> trim_start (c :: t) = c :: t.
Proof. intros H. cbn [trim_start]. rewrite H. reflexivity. Qed.

Lemma trim_start_idempotent (s : jsstring) :
  trim_start (trim_start s) = trim_start s.
Proof.
  destruct (trim_start s) as [|c t] eqn:E; [reflexivity|].
  apply trim_start_keeps, (trim_start_head s c t E).
Qed.

Lemma trim_start_last (l : jsstring) (c : N) :
  is_white_space c = false -> trim_start (l ++ [c]) = trim_start l ++ [c].
Proof.
  intros H. induction l as [|x l IH]; cbn [app trim_start].
  - rewrite H. reflexivity.
  - destruct (is_white_space x); [exact IH|reflexivity].
Qed.

(** What [trim] returns is empty, or has no white space at either end. *)
Lemma trim_shape (s : jsstring) :
  trim s = [] \/
  (exists c t, trim s = c :: t /\ is_white_space c = false) /\
  (exists t d, trim s = t ++ [d] /\ is_white_space d = false).
Proof.
  unfold trim, trim_end.
  destruct (trim_start s) as [|c u] eqn:E; [left; reflexivity|right].
  pose proof (trim_start_head s c u E) as Hc.
  assert (Ev : trim_start (rev (c :: u)) = trim_start (rev u) ++ [c]).
  { cbn [rev]. apply trim_start_last, Hc. }
  split.
  - exists c, (rev (trim_start (rev u))). split; [|exact Hc].
    rewrite Ev. apply rev_unit.
  - destruct (trim_start (rev (c :: u))) as [|d v] eqn:Ed.
    + symmetry in Ev. apply app_eq_nil in Ev as [_ Ev]. discriminate.
    + exists (rev v), d. split; [reflexivity|].
      apply (trim_start_head _ _ _ Ed).
Qed.

(** Trimming twice is trimming once. *)
Lemma trim_idempotent (s : jsstring) : trim (trim s) = trim s.
Proof.
  destruct (trim_shape s) as [E|[(c & t & E & Hc) _]].
  - rewrite E. reflexivity.
  - unfold trim at 1. rewrite E, (trim_start_keeps c t Hc), <- E.
    unfold trim, trim_end. rewrite rev_involutive, trim_start_idempotent.
    reflexivity.
Qed.

(** ** What a request can answer *)

Lemma age_check_inv (n : number) :
  negb (isFinite n) || lessThan n zero = false ->
  exists q, n = Finite q /\ (0 <= q)%Q.
Proof.
  destruct n as [|sg|q]; cbn [isFinite negb orb]; try discriminate.
  intros H. exists q. split; [reflexivity|].
  cbn [lessThan zero] in H. apply negb_false_iff, Qle_bool_iff in H. exact H.
Qed.

(** Every way through [create], with what decided it. *)
Lemma create_inv (body : value) (s : store) :
  (create body s = (Sent 400 name_required, s) /\
   forall nm, fst (name_and_age body) = VString nm -> trim nm = []) \/
  (exists nm,
      fst (name_and_age body) = VString nm /\ trim nm <> [] /\
      ((exists e,
           ToNumber (snd (name_and_age body)) = Throw e /\
           create body s = (Thrown e, s)) \/
       (exists n,
           ToNumber (snd (name_and_age body)) = Normal n /\
           (isFinite n = false \/ lessThan n zero = true) /\
           create body s = (Sent 400 age_invalid, s)) \/
       (exists q,
           ToNumber (snd (name_and_age body)) = Normal (Finite q) /\
           (0 <= q)%Q /\
           create body s =
             (Sent 201
                (ResidentJson
                   {| id := nextResidentId s;
                      name := trim nm;
                      age := Z.quot (Qnum q) (Zpos (Qden q)) |}),
              {| residents :=
                   residents s ++
                     [{| id := nextResidentId s;
                         name := trim nm;
                         age := Z.quot (Qnum q) (Zpos (Qden q)) |}];
                 nextResidentId := increment (nextResidentId s) |})))).
Proof.
  destruct (name_and_age body) as [v a] eqn:E. cbn [fst snd].
  assert (Hbad : (forall nm, v = VString nm -> trim nm = []) ->
                 create body s = (Sent 400 name_required, s) /\
                 forall nm, v = VString nm -> trim nm = []).
  { intros H. split; [|exact H]. exact (create_name_rejected _ s _ _ E H). }
  destruct v as [| | | |nm| |]; try (left; apply Hbad; discriminate).
  destruct (list_eq_dec N.eq_dec (trim nm) []) as [Hnm|Hnm].
  { left. apply Hbad. intros nm' Heq. injection Heq as <-. exact Hnm. }
  right. exists nm. split; [reflexivity|]. split; [exact Hnm|].
  rewrite (create_named _ s _ _ E Hnm).
  destruct (ToNumber a) as [n|e]; [|left; exists e; auto].
  right. destruct (negb (isFinite n) || lessThan n zero) eqn:Hn.
  - left. exists n. split; [reflexivity|]. split; [|reflexivity].
    apply orb_true_iff in Hn as [Hn|Hn]; [left|right; exact Hn].
    apply negb_true_iff, Hn.
  - right. destruct (age_check_inv n Hn) as (q & -> & Hq).
    exists q. split; [reflexivity|]. split; [exact Hq|].
    cbv zeta. rewrite to_integer_trunc. reflexivity.
Qed.

Lemma removed_cons_204 (b : payload) (os : list outcome) :
  removed (Sent 204 b :: os) = S (removed os).
Proof. reflexivity. Qed.

(** One request either answers without touching the store, and then with
    something other than a 201 or a 204; or creates; or deletes. *)
Lemma handle_cases (rq : request) (s : store) :
  (exists o,
      handle rq s = (o, s) /\
      (forall os, created (o :: os) = created os) /\
      (forall os, removed (o :: os) = removed os)) \/
  (exists r,
      id r = nextResidentId s /\
      handle rq s =
        (Sent 201 (ResidentJson r),
         {| residents := residents s ++ [r];
            nextResidentId := increment (nextResidentId s) |})) \/
  (exists l1 r l2,
      residents s = l1 ++ r :: l2 /\
      handle rq s =
        (Sent 204 Empty,
         {| residents := l1 ++ l2; nextResidentId := nextResidentId s |})).
Proof.
  destruct rq as [|body|param]; cbn [handle].
  - left. eexists. split; [reflexivity|]. split; reflexivity.
  - destruct (create_cases body s) as [E|[E|[E|(r & Hr & E)]]]; rewrite E;
      try (left; eexists; split; [reflexivity|]; split; reflexivity).
    right. left. exists r. auto.
  - destruct (delete_cases param s) as [E|(l1 & r & l2 & Hl & E)]; rewrite E.
    + left. eexists. split; [reflexivity|]. split; reflexivity.
    + right. right. exists l1, r, l2. auto.
Qed.

Lemma removed_cons_201 (b : payload) (os : list outcome) :
  removed (Sent 201 b :: os) = removed os.
Proof. reflexivity. Qed.

(** ** Invariants of the store *)

(** The counter is the first id, advanced once per resident created. *)
Lemma serve_counter (rqs : list request) (s : store) :
  1 <= nextResidentId s <= MAX_EXACT ->
  nextResidentId (snd (serve rqs s)) =
    nth_id (nextResidentId s) (List.length (created (fst (serve rqs s)))).
Proof.
  revert s. induction rqs as [|rq rqs IH]; intros s Hs.
  - cbn [serve fst snd created List.length]. unfold nth_id. lia.
  - rewrite serve_cons. cbn [fst snd].
    specialize (IH (snd (handle rq s))).
    destruct (handle_cases rq s)
      as [(o & E & Hc & _)|[(r & Hr & E)|(l1 & r & l2 & Hl & E)]];
      rewrite E in *; cbn [fst snd nextResidentId] in *.
    + rewrite Hc. auto.
    + rewrite created_cons_201. cbn [List.length].
      rewrite IH by (rewrite increment_min; lia).
      unfold nth_id. rewrite increment_min by lia. lia.
    + cbn [created]. auto.
Qed.

(** The collection grows by one with each 201 and shrinks by one with
    each 204. *)
Lemma serve_size (rqs : list request) (s : store) :
  (List.length (residents (snd (serve rqs s))) + removed (fst (serve rqs s)) =
   List.length (residents s) + List.length (created (fst (serve rqs s))))%nat.
Proof.
  revert s. induction rqs as [|rq rqs IH]; intros s.
  - cbn [serve fst snd created removed List.length]. lia.
  - rewrite serve_cons. cbn [fst snd].
    specialize (IH (snd (handle rq s))).
    destruct (handle_cases rq s)
      as [(o & E & Hc & Hr)|[(r & Hr & E)|(l1 & r & l2 & Hl & E)]];
      rewrite E in *; cbn [fst snd residents] in *.
    + rewrite Hc, Hr. exact IH.
    + rewrite created_cons_201, removed_cons_201. cbn [List.length].
      rewrite length_app in IH. cbn [List.length] in IH. lia.
    + rewrite removed_cons_204. cbn [created].
      rewrite Hl. rewrite !length_app in *. cbn [List.length]. lia.
Qed.

(** A property of every resident a request answers 201 with holds of
    every resident created. *)
Lemma serve_created_Forall (P : Resident -> Prop) :
  (forall rq s r, fst (handle rq s) = Sent 201 (ResidentJson r) -> P r) ->
  forall rqs s, Forall P (created (fst (serve rqs s))).
Proof.
  intros HP rqs. induction rqs as [|rq rqs IH]; intros s; [constructor|].
  rewrite serve_cons. cbn [fst].
  specialize (IH (snd (handle rq s))). specialize (HP rq s).
  destruct (fst (handle rq s)) as [st [| |r|]|]; cbn [created]; try exact IH.
  destruct (Z.eqb_spec st 201) as [->|_]; [|exact IH].
  constructor; [apply HP; reflexivity|exact IH].
Qed.

Lemma subsequence_nil_l {A : Type} (l : list A) : subsequence [] l.
Proof. induction l; constructor; assumption. Qed.

Lemma subsequence_length {A : Type} (l l' : list A) :
  subsequence l l' -> (List.length l <= List.length l')%nat.
Proof. induction 1; cbn [List.length]; lia. Qed.

(** A sublist as long as the list is the list. *)
Lemma subsequence_full {A : Type} (l l' : list A) :
  subsequence l l' -> List.length l = List.length l' -> l = l'.
Proof.
  induction 1 as [|x l l' Hs IH|x l l' Hs IH]; cbn [List.length]; intros Hl.
  - reflexivity.
  - f_equal. apply IH. lia.
  - apply subsequence_length in Hs. lia.
Qed.

Lemma subsequence_StronglySorted {A : Type} (R : A -> A -> Prop)
    (l l' : list A) :
  subsequence l l' -> StronglySorted R l' -> StronglySorted R l.
Proof.
  induction 1 as [|x l l' Hs IH|x l l' Hs IH]; intros Hsorted.
  - constructor.
  - inversion Hsorted as [|y k Hk Hall]; subst.
    constructor; [auto|].
    rewrite Forall_forall in *. intros z Hz. apply Hall.
    exact (subsequence_In _ _ _ Hs Hz).
  - inversion Hsorted; subst. auto.
Qed.

(** The ids given out from a counter at [n] increase as long as they stay
    within [2^53]. *)
Lemma nth_id_sorted (n : Z) (len start : nat) :
  n + Z.of_nat start + Z.of_nat len <= MAX_EXACT + 1 ->
  StronglySorted Z.lt (map (nth_id n) (seq start len)).
Proof.
  revert start. induction len as [|len IH]; intros start H; cbn [seq map].
  - constructor.
  - constructor; [apply IH; lia|].
    apply Forall_forall. intros z Hz.
    apply in_map_iff in Hz as (k & <- & Hk). apply in_seq in Hk.
    unfold nth_id. lia.
Qed.

(** The residents of a registry that started empty were all created. *)
Lemma stored_was_created (rqs : list request) (r : Resident) :
  In r (residents (snd (serve rqs initial))) ->
  In r (created (fst (serve rqs initial))).
Proof. apply subsequence_In, (serve_order rqs initial). Qed.

(** Their ids are between 1 and the counter, and below it until it has
    reached [2^53]. *)
Lemma stored_id_range (rqs : list request) (r : Resident) :
  In r (residents (snd (serve rqs initial))) ->
  1 <= id r <= nextResidentId (snd (serve rqs initial)) /\
  (nextResidentId (snd (serve rqs initial)) < MAX_EXACT ->
   id r < nextResidentId (snd (serve rqs initial))).
Proof.
  intros Hr. pose proof MAX_EXACT_positive as Hpos.
  rewrite (serve_counter rqs initial) by (cbn; lia).
  apply stored_was_created, (in_map id) in Hr.
  rewrite (serve_ids rqs initial) in Hr by (cbn; lia).
  apply in_map_iff in Hr as (k & <- & Hk). apply in_seq in Hk.
  change (nextResidentId initial) with 1. unfold nth_id. lia.
Qed.

Lemma trimmed_well_formed (i : Z) (nm : jsstring) (q : Q) :
  trim nm <> [] ->
  (0 <= q)%Q ->
  well_formed
    {| id := i; name := trim nm; age := Z.quot (Qnum q) (Zpos (Qden q)) |}.
Proof.
  intros Hnm Hq. unfold well_formed. cbn [name age].
  split; [exact Hnm|]. split; [apply trim_idempotent|].
  destruct (trim_shape nm) as [E|[(c & t & Ec & Hc) (u & d & Ed & Hd)]];
    [contradiction|].
  split; [|split].
  - intros c' t' E. rewrite Ec in E. injection E as <- _. exact Hc.
  - intros u' d' E. rewrite Ed in E. apply app_inj_tail in E as [_ <-].
    exact Hd.
  - apply Z.quot_pos; [|reflexivity].
    unfold Qle in Hq. cbn [Qnum Qden] in Hq. lia.
Qed.

Lemma handle_201_well_formed (rq : request) (s : store) (r : Resident) :
  fst (handle rq s) = Sent 201 (ResidentJson r) -> well_formed r.
Proof.
  destruct rq as [|body|param]; cbn [handle].
  - discriminate.
  - destruct (create_inv body s)
      as [[E _]|(nm & _ & Hnm & [(e & _ & E)|[(n & _ & _ & E)|(q & _ & Hq & E)]])];
      rewrite E; cbn [fst]; try discriminate.
    intros H. injection H as <-. apply trimmed_well_formed; assumption.
  - destruct (delete_cases param s) as [E|(l1 & x & l2 & _ & E)]; rewrite E;
      discriminate.
Qed.

(** X1. In every state the registry reaches, the counter is between 1 and
    [2^53], and every stored resident has an id between 1 and the counter;
    below [2^53] the id is less than the counter, so the next id is
    fresh. *)
Theorem stored_ids_in_range (rqs : list request) :
  let s := snd (serve rqs initial) in
  1 <= nextResidentId s <= MAX_EXACT /\
  (forall r, In r (residents s) ->
             1 <= id r <= nextResidentId s /\
             (nextResidentId s < MAX_EXACT -> id r < nextResidentId s)).
Proof.
  intros s. split; [|apply stored_id_range].
  pose proof MAX_EXACT_positive. unfold s.
  rewrite (serve_counter rqs initial) by (cbn; lia).
  change (nextResidentId initial) with 1. unfold nth_id. lia.
Qed.

Lemma stored_ids_in_range_witness :
  let s := snd (serve [Create jane_doe; Create jane_doe; Delete (lit "1")]
                  initial) in
  1 <= id (jane 2) <= nextResidentId s /\ id (jane 2) < nextResidentId s.
Proof.
  intros s.
  destruct (stored_ids_in_range
              [Create jane_doe; Create jane_doe; Delete (lit "1")])
    as [_ H].
  destruct (H (jane 2)) as [Hrange Hfresh].
  - left. reflexivity.
  - split; [exact Hrange|]. apply Hfresh. reflexivity.
Defined.

(** X2. The counter is one more than the number of residents created so
    far (and stops at [2^53]): a request that is turned down, throws, lists
    or deletes does not use up an id. *)
Theorem counter_counts_created (rqs : list request) :
  nextResidentId (snd (serve rqs initial)) =
    Z.min (1 + Z.of_nat (List.length (created (fst (serve rqs initial)))))
      MAX_EXACT.
Proof.
  pose proof MAX_EXACT_positive.
  rewrite (serve_counter rqs initial) by (cbn; lia). reflexivity.
Qed.

(** X3. Every resident in the collection has a name that is not empty and
    has no white space at its start or its end (it is its own trim), and an
    age that is not negative. *)
Theorem stored_residents_well_formed (rqs : list request) (r : Resident) :
  In r (residents (snd (serve rqs initial))) ->
  name r <> [] /\
  trim (name r) = name r /\
  (forall c t, name r = c :: t -> is_white_space c = false) /\
  (forall t d, name r = t ++ [d] -> is_white_space d = false) /\
  0 <= age r.
Proof.
  intros Hr. apply stored_was_created in Hr.
  pose proof (serve_created_Forall well_formed handle_201_well_formed
                rqs initial) as Hall.
  rewrite Forall_forall in Hall. exact (Hall r Hr).
Qed.

(** A name sent with white space around it and a fractional age. *)
Lemma stored_residents_well_formed_witness :
  let r := {| id := 1; name := lit "Jane Doe"; age := 35 |} in
  name r <> [] /\ trim (name r) = name r /\ 0 <= age r.
Proof.
  intros r.
  destruct (stored_residents_well_formed
              [Create (request_body (lit "  Jane Doe ")
                         (VNumber (Finite age_35_7)))] r)
    as (Hname & Htrim & _ & _ & Hage).
  - left. reflexivity.
  - split; [exact Hname|]. split; [exact Htrim|exact Hage].
Defined.

(** X4. As long as no more than [2^53] residents have been created, the
    collection is in strictly increasing order of id: [list] returns the
    residents sorted by id. *)
Theorem residents_sorted_by_id (rqs : list request) :
  Z.of_nat (List.length (created (fst (serve rqs initial)))) <= MAX_EXACT ->
  StronglySorted Z.lt (map id (residents (snd (serve rqs initial)))).
Proof.
  intros Hmax. pose proof MAX_EXACT_positive.
  apply subsequence_StronglySorted
    with (map id (created (fst (serve rqs initial)))).
  - apply subsequence_map, (serve_order rqs initial).
  - rewrite (serve_ids rqs initial) by (cbn; lia).
    apply nth_id_sorted. change (nextResidentId initial) with 1. lia.
Qed.

Lemma residents_sorted_by_id_witness :
  StronglySorted Z.lt
    (map id
       (residents
          (snd (serve [Create jane_doe; Create jane_doe; Delete (lit "1");
                       Create jane_doe] initial)))).
Proof.
  apply residents_sorted_by_id. vm_compute. discriminate.
Defined.

(** X5. The size of the collection is the number of 201 answers less the
    number of 204 answers: a [create] that succeeds adds exactly one
    resident, a [delete] that succeeds takes exactly one out, and nothing
    else changes the size. *)
Theorem collection_size (rqs : list request) :
  (List.length (residents (snd (serve rqs initial))) +
   removed (fst (serve rqs initial)) =
   List.length (created (fst (serve rqs initial))))%nat.
Proof. exact (serve_size rqs initial). Qed.

(** X6. As long as no [delete] has answered 204, the collection is exactly
    the residents created, in the order of their creation: no other
    request loses or reorders a resident. *)
Theorem nothing_lost_without_delete (rqs : list request) :
  removed (fst (serve rqs initial)) = O ->
  residents (snd (serve rqs initial)) = created (fst (serve rqs initial)).
Proof.
  intros Hnone. apply subsequence_full.
  - apply (serve_order rqs initial).
  - pose proof (serve_size rqs initial) as Hsize.
    cbn [initial residents List.length] in Hsize. lia.
Qed.

(** Two creates, a create that is turned down, a list and a delete that
    finds nothing. *)
Lemma nothing_lost_without_delete_witness :
  residents
    (snd (serve [Create jane_doe; Create VNull; List; Create jane_doe;
                 Delete (lit "7")] initial)) =
  [jane 1; jane 2].
Proof.
  apply (nothing_lost_without_delete
           [Create jane_doe; Create VNull; List; Create jane_doe;
            Delete (lit "7")]).
  reflexivity.
Defined.

(** ** Deleting what was created *)

Lemma findIndex_app_hit {A : Type} (p : A -> bool) (l : list A) (x : A) :
  (forall y, In y l -> p y = false) ->
  p x = true ->
  findIndex p (l ++ [x]) = Z.of_nat (List.length l).
Proof.
  intros Hl Hx. induction l as [|y l IH]; cbn [app findIndex List.length].
  - rewrite Hx. reflexivity.
  - rewrite (Hl y (or_introl eq_refl)), IH by (intros z Hz; apply Hl; right; exact Hz).
    destruct (Z.eqb_spec (Z.of_nat (List.length l)) (-1)); lia.
Qed.

(** A number that is [===] to an integer, and integers it is not [===]
    to. *)
Lemma same_id_hit (q : Q) (r : Resident) :
  (q == inject_Z (id r))%Q -> same_id (Finite q) r = true.
Proof.
  intros H. unfold same_id, of_Z. cbn [strict_equals].
  apply Qeq_bool_iff. symmetry. exact H.
Qed.

Lemma same_id_miss (q : Q) (r : Resident) :
  ~ (q == inject_Z (id r))%Q -> same_id (Finite q) r = false.
Proof.
  intros H. destruct (same_id (Finite q) r) eqn:E; [|reflexivity].
  exfalso. apply H. unfold same_id, of_Z in E. cbn [strict_equals] in E.
  apply Qeq_bool_iff in E. symmetry. exact E.
Qed.

Lemma inject_Z_injective (a b : Z) :
  (inject_Z a == inject_Z b)%Q -> a = b.
Proof. unfold Qeq. cbn [inject_Z Qnum Qden]. lia. Qed.

(** Deleting the id of the last resident, when no resident before has it,
    takes that last resident out. *)
Lemma delete_last (param : jsstring) (q : Q) (l : list Resident)
    (r : Resident) (n : Z) :
  StringToNumber param = Finite q ->
  (q == inject_Z (id r))%Q ->
  (forall x, In x l -> id x <> id r) ->
  delete param {| residents := l ++ [r]; nextResidentId := n |} =
    (Sent 204 Empty, {| residents := l; nextResidentId := n |}).
Proof.
  intros Hp Hq Hfresh. unfold delete. rewrite Hp.
  cbn [isFinite negb residents nextResidentId].
  rewrite (findIndex_app_hit (same_id (Finite q)) l r).
  - destruct (Z.eqb_spec (Z.of_nat (List.length l)) (-1)); [lia|].
    rewrite (splice_one l [] r), app_nil_r. reflexivity.
  - intros x Hx. apply same_id_miss. intros Hqx.
    apply (Hfresh x Hx), inject_Z_injective. rewrite <- Hqx. exact Hq.
  - apply same_id_hit, Hq.
Qed.

(** X7. Below [2^53], deleting the id that a [create] has just answered
    with undoes the [create] on the collection: the residents are again
    those from before it, in their order (the counter stays advanced). *)
Theorem create_then_delete (rqs : list request) (body : value)
    (r : Resident) (s1 : store) (param : jsstring) (q : Q) :
  let s := snd (serve rqs initial) in
  nextResidentId s < MAX_EXACT ->
  create body s = (Sent 201 (ResidentJson r), s1) ->
  StringToNumber param = Finite q ->
  (q == inject_Z (id r))%Q ->
  delete param s1 =
    (Sent 204 Empty,
     {| residents := residents s; nextResidentId := nextResidentId s1 |}).
Proof.
  intros s Hmax Hc Hp Hq.
  destruct (create_cases body s) as [E|[E|[E|(r' & Hr & E)]]];
    rewrite E in Hc; try discriminate.
  injection Hc as <- <-. cbn [nextResidentId].
  apply (delete_last param q); try assumption.
  intros x Hx. destruct (stored_id_range rqs x Hx) as [_ Hlt].
  fold s in Hlt. specialize (Hlt Hmax). lia.
Qed.

(** A second resident created and deleted again by the parameter [" 2 "]. *)
Lemma create_then_delete_witness :
  delete (lit " 2 ")
    {| residents := [jane 1; jane 2]; nextResidentId := 3 |} =
    (Sent 204 Empty, {| residents := [jane 1]; nextResidentId := 3 |}).
Proof.
  apply (create_then_delete [Create jane_doe] jane_doe (jane 2)
           {| residents := [jane 1; jane 2]; nextResidentId := 3 |}
           (lit " 2 ") 2%Q).
  - reflexivity.
  - reflexivity.
  - reflexivity.
  - reflexivity.
Defined.

(** X8. A [delete] for an id that was never given out answers 404 and
    changes nothing: a number below 1 (as the empty parameter, which
    [Number] reads as 0), a number that is no integer, and, below [2^53],
    any number from the counter's value on. *)
Theorem delete_unissued_id (rqs : list request) (param : jsstring) (q : Q) :
  let s := snd (serve rqs initial) in
  StringToNumber param = Finite q ->
  (q < 1)%Q \/
  (forall k, ~ (q == inject_Z k)%Q) \/
  (nextResidentId s < MAX_EXACT /\ (inject_Z (nextResidentId s) <= q)%Q) ->
  delete param s = (Sent 404 not_found, s).
Proof.
  intros s Hp Hq. apply delete_not_found. right. intros r Hr.
  rewrite Hp. apply same_id_miss. intros Heq.
  destruct (stored_id_range rqs r Hr) as [Hrange Hlt]. fold s in Hrange, Hlt.
  destruct Hq as [Hq|[Hq|[Hmax Hq]]].
  - rewrite Heq in Hq. unfold Qlt in Hq. cbn [inject_Z Qnum Qden] in Hq. lia.
  - exact (Hq _ Heq).
  - specialize (Hlt Hmax). rewrite Heq in Hq.
    unfold Qle in Hq. cbn [inject_Z Qnum Qden] in Hq. lia.
Qed.

(** After one create: the parameters ["9999"], [" "] and ["1.5"]. *)
Lemma delete_unissued_id_witness :
  let s := {| residents := [jane 1]; nextResidentId := 2 |} in
  delete (lit "9999") s = (Sent 404 not_found, s) /\
  delete (lit " ") s = (Sent 404 not_found, s) /\
  delete (lit "1.5") s = (Sent 404 not_found, s).
Proof.
  intros s. split; [|split].
  - apply (delete_unissued_id [Create jane_doe] (lit "9999") 9999%Q).
    + reflexivity.
    + right. right. split; [reflexivity|discriminate].
  - apply (delete_unissued_id [Create jane_doe] (lit " ") 0%Q).
    + reflexivity.
    + left. reflexivity.
  - apply (delete_unissued_id [Create jane_doe] (lit "1.5") (3 # 2)%Q).
    + reflexivity.
    + right. left. intros k. unfold Qeq. cbn [inject_Z Qnum Qden]. lia.
Defined.

(** ** Exceptions and answers *)

(** [Number] throws exactly on what [ToString] throws on. *)
Lemma ToNumber_throws (a : value) (e : error) :
  ToNumber a = Throw e <-> stringifies a = false.
Proof.
  destruct e.
  destruct a; cbn [ToNumber];
    try (split; cbn [stringifies]; discriminate);
    destruct (stringifies _); split; try discriminate; reflexivity.
Qed.

(** X9. [list] and [delete] never throw.  [create] throws exactly when the
    name is valid and the age is an object that has an own [toString], or
    an array that holds one (at any depth); it then leaves the store as it
    was.  An age that is [undefined], [null], a boolean, a number or a
    string never makes it throw. *)
Theorem only_create_throws :
  (forall s e, fst (list_all s) <> Thrown e) /\
  (forall param s e, fst (delete param s) <> Thrown e) /\
  (forall body s e,
      fst (create body s) = Thrown e <->
      exists nm,
        fst (name_and_age body) = VString nm /\ trim nm <> [] /\
        stringifies (snd (name_and_age body)) = false) /\
  (forall body s e,
      fst (create body s) = Thrown e -> snd (create body s) = s) /\
  (forall a,
      stringifies a = false ->
      (exists l, a = VArray l /\ existsb (fun x => negb (stringifies x)) l = true) \/
      (exists props v, a = VObject props /\
                       own_property (lit "toString") props = Some v)).
Proof.
  split; [discriminate|]. split; [|split; [|split]].
  - intros param s e.
    destruct (delete_cases param s) as [E|(l1 & r & l2 & _ & E)]; rewrite E;
      discriminate.
  - intros body s e. split.
    + destruct (create_inv body s)
        as [[E _]|(nm & Hv & Hnm &
                   [(e' & Ha & E)|[(n & _ & _ & E)|(q & _ & _ & E)]])];
        rewrite E; cbn [fst]; try discriminate.
      intros _. exists nm. split; [exact Hv|]. split; [exact Hnm|].
      apply (ToNumber_throws _ e'), Ha.
    + intros (nm & Hv & Hnm & Ha).
      apply (ToNumber_throws _ e) in Ha.
      destruct (name_and_age body) as [v a] eqn:E. cbn [fst snd] in *.
      subst v. rewrite (create_named _ s _ _ E Hnm), Ha. reflexivity.
  - intros body s e.
    destruct (create_cases body s) as [E|[E|[E|(r & _ & E)]]]; rewrite E;
      cbn [fst snd]; try reflexivity.
    discriminate.
  - intros a Ha. destruct a; cbn [stringifies] in Ha; try discriminate.
    + left. exists elements. split; [reflexivity|].
      induction elements as [|x l IH]; cbn [forallb existsb] in *;
        [discriminate|].
      destruct (stringifies x); cbn [negb andb orb] in *; auto.
    + right.
      destruct (own_property (lit "toString") properties) as [v|] eqn:E;
        [|discriminate].
      exists properties, v. auto.
Qed.

(** An array that holds an object with an own [toString]. *)
Lemma only_create_throws_witness :
  fst (create
         (request_body (lit "Jane Doe")
            (VArray [VObject [(lit "toString", VNumber zero)]]))
         initial) = Thrown TypeError.
Proof.
  destruct only_create_throws as (_ & _ & H & _).
  apply H. exists (lit "Jane Doe").
  split; [reflexivity|]. split; [discriminate|reflexivity].
Defined.

(** X10. Every answer pairs its status with one kind of body: 200 with the
    residents in the store, 201 with a resident whose id is the counter's
    value, 204 with no body, 400 with one of the two validation messages,
    404 with the not-found message; no other status is sent. *)
Theorem response_shapes (rq : request) (s : store) (st : Z) (b : payload) :
  fst (handle rq s) = Sent st b ->
  (st = 200 /\ rq = List /\ b = ResidentsJson (residents s)) \/
  (st = 201 /\ (exists body, rq = Create body) /\
   exists r, b = ResidentJson r /\ id r = nextResidentId s) \/
  (st = 204 /\ (exists param, rq = Delete param) /\ b = Empty) \/
  (st = 400 /\ (exists body, rq = Create body) /\
   (b = name_required \/ b = age_invalid)) \/
  (st = 404 /\ (exists param, rq = Delete param) /\ b = not_found).
Proof.
  destruct rq as [|body|param]; cbn [handle].
  - cbn [list_all fst]. intros H. injection H as <- <-. auto.
  - destruct (create_cases body s) as [E|[E|[E|(r & Hr & E)]]]; rewrite E;
      cbn [fst]; intros H; try discriminate; injection H as <- <-.
    + right. right. right. left.
      split; [reflexivity|]. split; [exists body; reflexivity|].
      left. reflexivity.
    + right. right. right. left.
      split; [reflexivity|]. split; [exists body; reflexivity|].
      right. reflexivity.
    + right. left.
      split; [reflexivity|]. split; [exists body; reflexivity|].
      exists r. split; [reflexivity|exact Hr].
  - destruct (delete_cases param s) as [E|(l1 & r & l2 & _ & E)]; rewrite E;
      cbn [fst]; intros H; injection H as <- <-.
    + right. right. right. right.
      split; [reflexivity|]. split; [exists param|]; reflexivity.
    + right. right. left.
      split; [reflexivity|]. split; [exists param|]; reflexivity.
Qed.

(** The answer to a delete with a parameter that is no number. *)
Lemma response_shapes_witness :
  let rq := Delete (lit "abc") in
  let s := initial in
  (404 = 200 /\ rq = List /\ not_found = ResidentsJson (residents s)) \/
  (404 = 201 /\ (exists body, rq = Create body) /\
   exists r, not_found = ResidentJson r /\ id r = nextResidentId s) \/
  (404 = 204 /\ (exists param, rq = Delete param) /\ not_found = Empty) \/
  (404 = 400 /\ (exists body, rq = Create body) /\
   (not_found = name_required \/ not_found = age_invalid)) \/
  (404 = 404 /\ (exists param, rq = Delete param) /\ not_found = not_found).
Proof.
  intros rq s. apply (response_shapes rq s 404 not_found). reflexivity.
Defined.

(** ** The age *)

(** X11. With a valid name and an age whose conversion completes, [create]
    answers 400 with the age message exactly when the number is [NaN], an
    infinity or below zero, and answers 201 otherwise. *)
Theorem age_check_decides (body : value) (s : store) (nm : jsstring)
    (a : value) (n : number) :
  name_and_age body = (VString nm, a) ->
  trim nm <> [] ->
  ToNumber a = Normal n ->
  (fst (create body s) = Sent 400 age_invalid <->
   n = NaN \/ (exists sg, n = Infinity sg) \/
   (exists q, n = Finite q /\ (q < 0)%Q)) /\
  (fst (create body s) = Sent 400 age_invalid \/
   exists r, fst (create body s) = Sent 201 (ResidentJson r)).
Proof.
  intros E Hnm Ha. rewrite (create_named _ s _ _ E Hnm), Ha.
  destruct n as [|sg|q]; cbn [isFinite negb orb fst].
  - split; [|left; reflexivity]. split; auto.
  - split; [|left; reflexivity]. split; eauto.
  - cbn [lessThan zero]. destruct (Qle_bool 0 q) eqn:Hq; cbn [negb fst].
    + split; [|right; eauto]. split; [discriminate|].
      intros [H|[(sg & H)|(q' & H & Hlt)]]; try discriminate.
      injection H as <-. apply Qle_bool_iff in Hq.
      exfalso. exact (Qlt_not_le _ _ Hlt Hq).
    + split; [|left; reflexivity]. split; [|reflexivity].
      intros _. right. right. exists q. split; [reflexivity|].
      apply Qnot_le_lt. intros Hle. apply Qle_bool_iff in Hle.
      rewrite Hle in Hq. discriminate.
Qed.

(** The ages ["Infinity"] and [1e999], which overflow to an infinity. *)
Lemma age_check_decides_witness :
  fst (create (request_body (lit "Jane Doe") (VString (lit "1e999"))) initial)
  = Sent 400 age_invalid.
Proof.
  destruct (age_check_decides
              (request_body (lit "Jane Doe") (VString (lit "1e999")))
              initial (lit "Jane Doe") (VString (lit "1e999"))
              (Infinity false))
    as [H _].
  - reflexivity.
  - discriminate.
  - reflexivity.
  - apply H. right. left. exists false. reflexivity.
Defined.

(** X12. A body with a valid name and no [age] is turned down with the age
    message: the missing age is [undefined], which [Number] reads as
    [NaN] (where an age of [null] is read as 0 and accepted). *)
Theorem create_without_age (props : list (jsstring * value)) (nm : jsstring)
    (s : store) :
  own_property (lit "name") props = Some (VString nm) ->
  trim nm <> [] ->
  own_property (lit "age") props = None ->
  create (VObject props) s = (Sent 400 age_invalid, s).
Proof.
  intros Hname Hnm Hage.
  apply (create_age_rejected _ s nm VUndefined NaN); auto.
  unfold name_and_age, or_else. cbn [ToBoolean get].
  rewrite Hname, Hage. reflexivity.
Qed.

Lemma create_without_age_witness :
  create (VObject [(lit "name", VString (lit "Jane Doe"))]) initial =
    (Sent 400 age_invalid, initial).
Proof.
  apply (create_without_age _ (lit "Jane Doe") initial).
  - reflexivity.
  - discriminate.
  - reflexivity.
Defined.

(** X13. A body that is not an object (an array, a string, a number, a
    boolean, [null] or nothing) is turned down with the name message and
    never throws: destructuring finds no [name] in it. *)
Theorem create_non_object_body (body : value) (s : store) :
  (forall props, body <> VObject props) ->
  create body s = (Sent 400 name_required, s).
Proof.
  intros H.
  apply (create_name_rejected body s VUndefined VUndefined); [|discriminate].
  unfold name_and_age, or_else.
  destruct body as [| |b|n|str|l|props]; try reflexivity.
  - destruct b; reflexivity.
  - destruct (ToBoolean (VNumber n)); reflexivity.
  - destruct str; reflexivity.
  - exfalso. exact (H props eq_refl).
Qed.

(** The body [["Jane Doe", 35.7]]. *)
Lemma create_non_object_body_witness :
  create (VArray [VString (lit "Jane Doe"); VNumber (Finite age_35_7)])
    initial =
    (Sent 400 name_required, initial).
Proof.
  apply create_non_object_body. discriminate.
Defined.

(** X14. The age that [create] stores is the integer part of the number
    the age converts to: not negative, not above the number, and less than
    one below it. *)
Theorem stored_age_is_floor (body : value) (s : store) (nm : jsstring)
    (a : value) (q : Q) :
  name_and_age body = (VString nm, a) ->
  trim nm <> [] ->
  ToNumber a = Normal (Finite q) ->
  (0 <= q)%Q ->
  exists r,
    fst (create body s) = Sent 201 (ResidentJson r) /\
    0 <= age r /\
    (inject_Z (age r) <= q)%Q /\
    (q < inject_Z (age r + 1))%Q.
Proof.
  intros E Hnm Ha Hq.
  rewrite (create_accepted body s nm a q E Hnm Ha Hq). cbn [fst].
  eexists. split; [reflexivity|]. cbn [age].
  unfold Qle in Hq. cbn [Qnum Qden] in Hq.
  assert (Hnum : 0 <= Qnum q) by lia.
  assert (Hden : 0 < Zpos (Qden q)) by reflexivity.
  rewrite Z.quot_div_nonneg by assumption.
  pose proof (Z.div_mod (Qnum q) (Zpos (Qden q))) as Hdm.
  pose proof (Z.mod_pos_bound (Qnum q) (Zpos (Qden q)) Hden) as Hmod.
  split; [apply Z.div_pos; assumption|].
  unfold Qle, Qlt. cbn [inject_Z Qnum Qden]. nia.
Qed.

Lemma stored_age_is_floor_witness :
  exists r,
    fst (create jane_doe initial) = Sent 201 (ResidentJson r) /\
    0 <= age r /\
    (inject_Z (age r) <= age_35_7)%Q /\
    (age_35_7 < inject_Z (age r + 1))%Q.
Proof.
  apply (stored_age_is_floor jane_doe initial (lit "Jane Doe")
           (VNumber (Finite age_35_7)) age_35_7).
  - reflexivity.
  - discriminate.
  - reflexivity.
  - discriminate.
Defined.

(** ** Deletes in either order *)

Lemma remove_first_none {A : Type} (p : A -> bool) (l : list A) :
  (forall x, In x l -> p x = false) ->
  existsb p l = false /\ remove_first p l = l.
Proof.
  induction l as [|x l IH]; cbn [existsb remove_first]; intros H; [auto|].
  rewrite (H x (or_introl eq_refl)).
  destruct IH as [-> ->]; [intros y Hy; apply H; right; exact Hy|]. auto.
Qed.

Lemma remove_first_hit {A : Type} (p : A -> bool) (l1 l2 : list A) (x : A) :
  (forall y, In y l1 -> p y = false) ->
  p x = true ->
  existsb p (l1 ++ x :: l2) = true /\
  remove_first p (l1 ++ x :: l2) = l1 ++ l2.
Proof.
  intros Hl Hx. induction l1 as [|y l1 IH]; cbn [app existsb remove_first].
  - rewrite Hx. auto.
  - rewrite (Hl y (or_introl eq_refl)).
    destruct IH as [-> ->]; [intros z Hz; apply Hl; right; exact Hz|]. auto.
Qed.

(** [delete], told by what it finds: the answer is 204 or 404 as some
    resident has the id or none has, and the collection loses the first
    resident that has it. *)
Lemma delete_remove_first (param : jsstring) (s : store) :
  delete param s =
    (if existsb (same_id (StringToNumber param)) (residents s)
     then Sent 204 Empty else Sent 404 not_found,
     {| residents :=
          remove_first (same_id (StringToNumber param)) (residents s);
        nextResidentId := nextResidentId s |}).
Proof.
  destruct (isFinite (StringToNumber param)) eqn:Hfin.
  - destruct (Z.eq_dec
                (findIndex (same_id (StringToNumber param)) (residents s))
                (-1)) as [E|E].
    + pose proof (proj1 (findIndex_none _ _) E) as Hnone.
      destruct (remove_first_none _ _ Hnone) as [-> ->].
      rewrite delete_not_found by (right; exact Hnone).
      destruct s; reflexivity.
    + destruct (findIndex_first _ _ E) as (l1 & r & l2 & El & Hr & Hl1 & _).
      destruct (delete_found param s Hfin) as (k1 & r' & k2 & Ek & Hr' & Hk1 & ->).
      { exists r. split; [|assumption]. rewrite El. apply in_elt. }
      rewrite Ek.
      destruct (remove_first_hit _ k1 k2 r' Hk1 Hr') as [-> ->]. reflexivity.
  - assert (Hnone : forall x, In x (residents s) ->
                              same_id (StringToNumber param) x = false).
    { intros x _. unfold same_id, of_Z.
      destruct (StringToNumber param); try discriminate; reflexivity. }
    destruct (remove_first_none _ _ Hnone) as [-> ->].
    rewrite delete_not_found by (left; exact Hfin).
    destruct s; reflexivity.
Qed.

Section Disjoint.
Context {A : Type} (p q : A -> bool).

Lemma remove_first_comm (l : list A) :
  (forall x, In x l -> p x = true -> q x = false) ->
  remove_first p (remove_first q l) = remove_first q (remove_first p l).
Proof.
  induction l as [|x l IH]; intros H; [reflexivity|].
  cbn [remove_first].
  pose proof (H x (or_introl eq_refl)) as Hx.
  destruct (p x) eqn:Px, (q x) eqn:Qx; cbn [remove_first];
    rewrite ?Px, ?Qx; try reflexivity.
  - specialize (Hx eq_refl). discriminate.
  - f_equal. apply IH. intros y Hy. apply H. right. exact Hy.
Qed.

Lemma existsb_remove_first (l : list A) :
  (forall x, In x l -> q x = true -> p x = false) ->
  existsb p (remove_first q l) = existsb p l.
Proof.
  induction l as [|x l IH]; intros H; [reflexivity|].
  cbn [remove_first existsb].
  pose proof (H x (or_introl eq_refl)) as Hx.
  destruct (q x) eqn:Qx.
  - rewrite (Hx eq_refl). reflexivity.
  - cbn [existsb]. rewrite IH; [reflexivity|].
    intros y Hy. apply H. right. exact Hy.
Qed.
End Disjoint.

(** X15. Two deletes whose parameters do not name the same stored resident
    can be done in either order: each gets the answer it would get alone,
    and the store they leave is the same. *)
Theorem deletes_commute (p1 p2 : jsstring) (s : store) :
  (forall r, In r (residents s) ->
             same_id (StringToNumber p1) r = true ->
             same_id (StringToNumber p2) r = false) ->
  snd (delete p2 (snd (delete p1 s))) = snd (delete p1 (snd (delete p2 s))) /\
  fst (delete p2 (snd (delete p1 s))) = fst (delete p2 s) /\
  fst (delete p1 (snd (delete p2 s))) = fst (delete p1 s).
Proof.
  intros H.
  assert (H' : forall r, In r (residents s) ->
                         same_id (StringToNumber p2) r = true ->
                         same_id (StringToNumber p1) r = false).
  { intros r Hr H2.
    destruct (same_id (StringToNumber p1) r) eqn:H1; [|reflexivity].
    rewrite (H r Hr H1) in H2. discriminate. }
  rewrite !delete_remove_first. cbn [fst snd residents nextResidentId].
  rewrite (remove_first_comm _ _ _ H).
  rewrite (existsb_remove_first _ _ _ H), (existsb_remove_first _ _ _ H').
  auto.
Qed.

(** The first and the third of three residents. *)
Lemma deletes_commute_witness :
  let s := {| residents := [jane 1; jane 2; jane 3]; nextResidentId := 4 |} in
  snd (delete (lit "3") (snd (delete (lit "1") s))) =
  snd (delete (lit "1") (snd (delete (lit "3") s))).
Proof.
  intros s. apply (deletes_commute (lit "1") (lit "3") s).
  intros r [<-|[<-|[<-|[]]]]; intros H; try reflexivity; discriminate H.
Defined.
